(** * BVBTCampflow: the Campflow -> spreadsheet synchroniser

    A shallow embedding of the reconciliation core of the repository
    ([campflow_api.py], [sheets_handler.py], [main.py]) and the properties
    its specification states about it.

    Conventions.
    - A Python [str] is a list of Unicode code points ([pystr]); literals
      are written as UTF-8 text and decoded by [py].
    - A Python [int] is a [Z].
    - Code that can raise returns an [outcome]; the exception classes that
      occur are listed in [exn].
    - Library functions the code calls ([datetime.fromisoformat],
      [json.dumps], [hashlib.sha256], [str.strip], ...) are modelled next to
      their callers; what this machine decides (the local time zone, the
      behaviour of [int()] on a cell) is a section variable. *)

From Stdlib Require Import ZArith NArith List Bool Lia String Ascii DecimalString.
From Stdlib Require Import Sorting.Permutation Sorting.Sorted.
From stdpp Require Import base decidable option list numbers gmap.

#[local] Set Warnings "-clear-no-such-hyp".

Open Scope Z_scope.

(* ================================================================== *)
(** ** Python strings *)
(* ================================================================== *)

Module PyStr.

Definition pystr := list N.

(** Decoding of a UTF-8 literal into code points: [need] continuation
    bytes are still expected for the code point accumulated in [acc]. *)
Fixpoint utf8_decode (bs : list N) (need : nat) (acc : N) : pystr :=
  match bs with
  | [] => []
  | b :: bs' =>
      match need with
      | O =>
          if (b <? 128)%N then b :: utf8_decode bs' 0 0%N
          else if (b <? 224)%N then utf8_decode bs' 1 (N.land b 31)
          else if (b <? 240)%N then utf8_decode bs' 2 (N.land b 15)
          else utf8_decode bs' 3 (N.land b 7)
      | S O => (acc * 64 + N.land b 63)%N :: utf8_decode bs' 0 0%N
      | S k => utf8_decode bs' k (acc * 64 + N.land b 63)%N
      end
  end.

Fixpoint bytes_of_string (s : string) : list N :=
  match s with
  | EmptyString => []
  | String c s' => N_of_ascii c :: bytes_of_string s'
  end.

Definition py (s : string) : pystr := utf8_decode (bytes_of_string s) 0 0%N.

(** [a == b] on strings. *)
Definition eqb (a b : pystr) : bool := bool_decide (a = b).

(** [s.startswith(p)] *)
Fixpoint startswith (s p : pystr) {struct p} : bool :=
  match p, s with
  | [], _ => true
  | _ :: _, [] => false
  | c :: p', d :: s' => (c =? d)%N && startswith s' p'
  end.

(** [s.endswith(p)] *)
Definition endswith (s p : pystr) : bool := startswith (rev s) (rev p).

(** [p in s] for strings. *)
Fixpoint contains (s p : pystr) : bool :=
  startswith s p ||
  match s with
  | [] => false
  | _ :: s' => contains s' p
  end.

(** [c in s] for a single character. *)
Definition has_char (c : N) (s : pystr) : bool := existsb (N.eqb c) s.

(** [s[-n:]] and [s[:-n]] *)
Definition last_n (n : nat) (s : pystr) : pystr := drop (length s - n) s.
Definition drop_last (n : nat) (s : pystr) : pystr := take (length s - n) s.

(** [str.isspace] for one character, the table of CPython's
    [Py_UNICODE_ISSPACE]. *)
Definition is_space (c : N) : bool :=
  ((9 <=? c) && (c <=? 13) || (28 <=? c) && (c <=? 32)
   || (c =? 133) || (c =? 160) || (c =? 5760)
   || (8192 <=? c) && (c <=? 8202)
   || (c =? 8232) || (c =? 8233) || (c =? 8239) || (c =? 8287)
   || (c =? 12288))%N.

Fixpoint lstrip (s : pystr) : pystr :=
  match s with
  | [] => []
  | c :: s' => if is_space c then lstrip s' else s
  end.

Definition rstrip (s : pystr) : pystr := rev (lstrip (rev s)).

(** [s.strip()] *)
Definition strip (s : pystr) : pystr := rstrip (lstrip s).

(** [s.split(sep)] for a non-empty separator: scan left to right, cut
    at every occurrence that does not overlap the previous one.  [skip]
    counts the characters of a matched separator still to be passed;
    [cur] is the current piece, reversed. *)
Fixpoint split_go (sep s : pystr) (skip : nat) (cur : pystr) : list pystr :=
  match s with
  | [] => [rev cur]
  | c :: s' =>
      match skip with
      | S k => split_go sep s' k cur
      | O =>
          if startswith s sep
          then rev cur :: split_go sep s' (length sep - 1) []
          else split_go sep s' 0 (c :: cur)
      end
  end.

Definition split (s sep : pystr) : list pystr := split_go sep s 0 [].

(** [s.split(sep)[0]] *)
Definition split_first (s sep : pystr) : pystr := hd [] (split s sep).

End PyStr.
Export PyStr.

(* ================================================================== *)
(** ** Position mapper ([GoogleSheetHandler.row_for_position]) *)
(* ================================================================== *)

(** The default of the constructor argument [reserved]. *)
Definition RESERVED : Z := 72.

(** [return pos + 1 if pos <= self.reserved else pos + 4] *)
Definition row_for_position (reserved pos : Z) : Z :=
  if pos <=? reserved then pos + 1 else pos + 4.

(* ================================================================== *)
(** ** Exceptions *)
(* ================================================================== *)

(** The exception classes that the modelled code and its collaborators
    raise.  All but [KeyboardInterrupt] derive from [Exception]. *)
Inductive exn : Type :=
| KeyError | ValueError | TypeError | AttributeError | OverflowError
| UnicodeEncodeError
| RequestException | HttpError | OSError
| KeyboardInterrupt.

(** [isinstance(e, Exception)] *)
Definition is_Exception (e : exn) : bool :=
  match e with
  | KeyboardInterrupt => false
  | _ => true
  end.

Inductive outcome (A : Type) : Type :=
| Ok (a : A)
| Raise (e : exn).
Arguments Ok {A} a.
Arguments Raise {A} e.

#[global] Instance outcome_ret : MRet outcome := fun _ a => Ok a.
#[global] Instance outcome_bind : MBind outcome := fun _ _ f m =>
  match m with
  | Ok a => f a
  | Raise e => Raise e
  end.
#[global] Instance outcome_fmap : FMap outcome := fun _ _ f m =>
  match m with
  | Ok a => Ok (f a)
  | Raise e => Raise e
  end.

(** Run [f] on every element in order; the first exception aborts. *)
Fixpoint mapM_outcome {A B} (f : A -> outcome B) (l : list A) : outcome (list B) :=
  match l with
  | [] => Ok []
  | x :: l' => y ← f x; ys ← mapM_outcome f l'; Ok (y :: ys)
  end.

Definition of_option {A} (e : exn) (o : option A) : outcome A :=
  match o with
  | Some a => Ok a
  | None => Raise e
  end.

(* ================================================================== *)
(** ** [datetime]: the part of the library that [to_dt] uses *)
(* ================================================================== *)

Module Datetime.

(** A [datetime] object.  [tzinfo] is [None] for a naive value and the
    UTC offset in microseconds for an aware one. *)
Record datetime : Type := mk_datetime {
  year : Z; month : Z; day : Z;
  hour : Z; minute : Z; second : Z; microsecond : Z;
  tzinfo : option Z
}.

Definition is_leap (y : Z) : bool :=
  (y mod 4 =? 0) && (negb (y mod 100 =? 0) || (y mod 400 =? 0)).

Definition days_in_month (y m : Z) : Z :=
  if m =? 2 then (if is_leap y then 29 else 28)
  else if (m =? 4) || (m =? 6) || (m =? 9) || (m =? 11) then 30
  else 31.

Definition days_before_year (y : Z) : Z :=
  let p := y - 1 in p * 365 + p / 4 - p / 100 + p / 400.

Fixpoint days_before_month_go (y : Z) (m : nat) : Z :=
  match m with
  | O => 0
  | S k => days_before_month_go y k + days_in_month y (Z.of_nat (S k))
  end.

(** Days in the year before the first day of month [m]. *)
Definition days_before_month (y m : Z) : Z :=
  days_before_month_go y (Z.to_nat (m - 1)).

(** Proleptic Gregorian ordinal, 0001-01-01 being day 1. *)
Definition ymd2ord (y m d : Z) : Z :=
  days_before_year y + days_before_month y m + d.

Definition MAXORDINAL : Z := 3652059.
Definition US_PER_DAY : Z := 86400000000.

(** Microseconds between 0001-01-01T00:00:00 and the wall-clock
    reading of [dt]. *)
Definition wall_micros (dt : datetime) : Z :=
  (((ymd2ord (year dt) (month dt) (day dt) - 1) * 24 + hour dt) * 60
    + minute dt) * 60000000 + second dt * 1000000 + microsecond dt.

Definition is_digit (c : N) : bool := ((48 <=? c) && (c <=? 57))%N.

Fixpoint digits_go (s : pystr) (acc : Z) : option Z :=
  match s with
  | [] => Some acc
  | c :: s' =>
      if is_digit c then digits_go s' (10 * acc + (Z.of_N c - 48)) else None
  end.

(** Exactly [n] ASCII digits. *)
Definition parse_digits (n : nat) (s : pystr) : option Z :=
  if (length s =? n)%nat then digits_go s 0 else None.

(** [s[i:j]] *)
Definition slice (i j : nat) (s : pystr) : pystr := take (j - i) (drop i s).

Definition DASH : N := 45.
Definition PLUS : N := 43.
Definition COLON : N := 58.
Definition DOT : N := 46.

(** [YYYY-MM-DD] *)
Definition parse_isoformat_date (d : pystr) : option (Z * Z * Z) :=
  y ← parse_digits 4 (slice 0 4 d);
  _ ← guard (d !! 4%nat = Some DASH);
  m ← parse_digits 2 (slice 5 7 d);
  _ ← guard (d !! 7%nat = Some DASH);
  dd ← parse_digits 2 (slice 8 10 d);
  Some (y, m, dd).

(** [.fff] or [.ffffff] after the seconds. *)
Definition parse_fraction (f : pystr) : option Z :=
  if (length f =? 3)%nat then us ← parse_digits 3 f; Some (us * 1000)
  else parse_digits 6 f.

(** [HH[:MM[:SS[.fff[fff]]]]] *)
Definition parse_hh_mm_ss_ff (t : pystr) : option (Z * Z * Z * Z) :=
  hh ← parse_digits 2 (take 2 t);
  match drop 2 t with
  | [] => Some (hh, 0, 0, 0)
  | c1 :: t1 =>
      _ ← guard (c1 = COLON);
      mm ← parse_digits 2 (take 2 t1);
      match drop 2 t1 with
      | [] => Some (hh, mm, 0, 0)
      | c2 :: t2 =>
          _ ← guard (c2 = COLON);
          ss ← parse_digits 2 (take 2 t2);
          match drop 2 t2 with
          | [] => Some (hh, mm, ss, 0)
          | c3 :: f =>
              _ ← guard (c3 = DOT);
              us ← parse_fraction f;
              Some (hh, mm, ss, us)
          end
      end
  end.

(** Index of the first ['+'] or ['-']. *)
Fixpoint find_sign (t : pystr) : option nat :=
  match t with
  | [] => None
  | c :: t' =>
      if (c =? PLUS)%N || (c =? DASH)%N then Some O
      else S <$> find_sign t'
  end.

(** [timezone(offset)] accepts offsets strictly between -24h and 24h. *)
Definition check_offset (off : Z) : option Z :=
  if (- US_PER_DAY <? off) && (off <? US_PER_DAY) then Some off else None.

(** [HH[:MM[:SS[.fff[fff]]]][+HH:MM[:SS[.ffffff]]]] *)
Definition parse_isoformat_time (t : pystr)
  : option (Z * Z * Z * Z * option Z) :=
  match find_sign t with
  | None => c ← parse_hh_mm_ss_ff t; Some (c, None)
  | Some i =>
      c ← parse_hh_mm_ss_ff (take i t);
      let tz := drop (S i) t in
      _ ← guard (length tz = 5 ∨ length tz = 8 ∨ length tz = 15)%nat;
      '(th, tm, ts, tus) ← parse_hh_mm_ss_ff tz;
      let sign := if bool_decide (t !! i = Some DASH) then -1 else 1 in
      off ← check_offset (sign * (((th * 60 + tm) * 60 + ts) * 1000000 + tus));
      Some (c, Some off)
  end.

(** The range checks of the [datetime] constructor. *)
Definition check_fields (dt : datetime) : bool :=
  (1 <=? year dt) && (year dt <=? 9999)
  && (1 <=? month dt) && (month dt <=? 12)
  && (1 <=? day dt) && (day dt <=? days_in_month (year dt) (month dt))
  && (0 <=? hour dt) && (hour dt <=? 23)
  && (0 <=? minute dt) && (minute dt <=? 59)
  && (0 <=? second dt) && (second dt <=? 59)
  && (0 <=? microsecond dt) && (microsecond dt <=? 999999).

(** [datetime.fromisoformat(s)] for the documented format
    [YYYY-MM-DD[*HH[:MM[:SS[.fff[fff]]]][+HH:MM[:SS[.ffffff]]]]]: the ten
    characters of the date, one separator character, the time; digits are
    ASCII digits.  Any other string raises [ValueError].  This is the
    format of Python 3.7 to 3.10.  Python 3.11 and later read the strings
    of this format the same way and accept further ISO 8601 forms (the
    basic format, offsets without a colon, fractions of other lengths):
    for those this definition raises where they return a value. *)
Definition fromisoformat (s : pystr) : outcome datetime :=
  of_option ValueError (
    '(y, m, d) ← parse_isoformat_date (take 10 s);
    '(hh, mm, ss, us, tz) ←
      (if (length s =? 10)%nat then Some (0, 0, 0, 0, None)
       else parse_isoformat_time (drop 11 s));
    let dt := mk_datetime y m d hh mm ss us tz in
    if check_fields dt then Some dt else None).

Section Local.

(** The UTC offset, in microseconds, that the machine's local time
    zone has at a naive wall-clock reading (given in microseconds
    since 0001-01-01T00:00:00). *)
Variable local_utcoffset : Z -> Z.

(** [dt.astimezone(timezone.utc)].  The result is an aware datetime
    in UTC; it is represented by its instant, the microseconds since
    0001-01-01T00:00:00 UTC, which is what comparisons between aware
    datetimes compare.  A naive [dt] is taken to be local time.
    Leaving the range of [datetime] raises [OverflowError].  For a
    naive [dt] within a day of the ends of that range the library's
    search for the local offset can fail by itself, with
    [ValueError]; that failure is left out here. *)
Definition astimezone_utc (dt : datetime) : outcome Z :=
  let wall := wall_micros dt in
  let off := match tzinfo dt with
             | Some o => o
             | None => local_utcoffset wall
             end in
  let t := wall - off in
  if (0 <=? t) && (t <? MAXORDINAL * US_PER_DAY) then Ok t
  else Raise OverflowError.

End Local.

End Datetime.
Export Datetime.

(* ================================================================== *)
(** ** Registration records as decoded JSON *)
(* ================================================================== *)

(** The values a field of a decoded JSON object can hold.  Numbers with
    a fraction are left out: the code treats them as it treats integers
    (they are true unless zero, and have neither [strip] nor [in]). *)
#[local] Unset Elimination Schemes.
Inductive pyval : Type :=
| PyNone
| PyBool (b : bool)
| PyInt (z : Z)
| PyStr (s : pystr)
| PyList (l : list pyval)
| PyDict (d : list (pystr * pyval)).
#[local] Set Elimination Schemes.

(** One registration record: a JSON object, looked up by key only. *)
Abbreviation item :=
  (@gmap pystr (@list_eq_dec N N.eq_dec) (@list_countable N N.eq_dec N_countable) pyval).

(** [bool(v)] *)
Definition truthy (v : pyval) : bool :=
  match v with
  | PyNone => false
  | PyBool b => b
  | PyInt z => negb (z =? 0)
  | PyStr s => negb (bool_decide (s = []))
  | PyList l => negb (bool_decide (length l = 0%nat))
  | PyDict d => negb (bool_decide (length d = 0%nat))
  end.

(** [it[k]] *)
Definition getitem (it : item) (k : pystr) : outcome pyval :=
  of_option KeyError (it !! k).

(** [it.get(k, d)] *)
Definition get (it : item) (k : pystr) (d : pyval) : pyval :=
  default d (it !! k).

(** [v.strip()]: only a [str] has the method. *)
Definition py_strip (v : pyval) : outcome pystr :=
  match v with
  | PyStr s => Ok (strip s)
  | _ => Raise AttributeError
  end.

(** [x == e] for a string [x] and any value [e]. *)
Definition str_eq_val (x : pystr) (e : pyval) : bool :=
  match e with
  | PyStr s => eqb x s
  | _ => false
  end.

(** [x in v] for a string [x]: membership in a list, substring of a
    string, key of a dict; other values are not containers. *)
Definition py_in (x : pystr) (v : pyval) : outcome bool :=
  match v with
  | PyList l => Ok (existsb (str_eq_val x) l)
  | PyStr s => Ok (contains s x)
  | PyDict d => Ok (existsb (fun kv => eqb x kv.1) d)
  | _ => Raise TypeError
  end.

(* ================================================================== *)
(** ** Row builder ([CampflowAPI.make_rows]) *)
(* ================================================================== *)

Definition TEAM_NAME_COL : pystr := py "col_9RodWlHTUW1bHtBe1VvN".
Definition VILLAGE_COL : pystr := py "col_ZUBDynEEutHqO8PX7GDL".
Definition LABEL_PAID : pystr := py "Bezahlt".

(** A row [(position, text, paid)]. *)
Definition Row : Type := Z * pystr * bool.

(** [enumerate(l, start)] *)
Fixpoint enumerate {A} (start : Z) (l : list A) : list (Z * A) :=
  match l with
  | [] => []
  | x :: l' => (start, x) :: enumerate (start + 1) l'
  end.

(** [sorted(l, key=...)] once the keys are computed: a stable sort.
    [insert_by_key] puts [x] before the first element whose key is not
    smaller, so that [x], which precedes the rest in the input, also
    precedes its ties in the output. *)
Fixpoint insert_by_key {A} (x : Z * A) (l : list (Z * A)) : list (Z * A) :=
  match l with
  | [] => [x]
  | y :: l' => if x.1 <=? y.1 then x :: l else y :: insert_by_key x l'
  end.

Definition sort_by_key {A} (l : list (Z * A)) : list (Z * A) :=
  foldr insert_by_key [] l.

(** [sorted(items, key=keyf)]: the keys are computed first, in input
    order; an exception in [keyf] aborts the call. *)
Definition sorted {A} (keyf : A -> outcome Z) (items : list A) : outcome (list A) :=
  keys ← mapM_outcome keyf items;
  Ok ((sort_by_key (zip keys items)).*2).

(** The f-string of [make_rows]. *)
Definition render (team village : pystr) (paid : bool) : pystr :=
  team ++ py " aus " ++ village ++ py " – "
       ++ (if paid then py "bestätigt" else py "unbestätigt").

Section RowBuilder.

Variable local_utcoffset : Z -> Z.

(** The inner function [to_dt]. *)
Definition to_dt (s : pystr) : outcome Z :=
  let s :=
    if endswith s (py "Z") then drop_last 1 s ++ py "+00:00"
    else if negb (has_char PLUS (last_n 6 s)) && negb (has_char DASH (last_n 6 s))
         then s ++ py "+00:00"
         else s in
  dt ← fromisoformat s;
  astimezone_utc local_utcoffset dt.

(** [lambda it: to_dt(it["creation_date"])]; a value that is not a
    string has no [endswith]. *)
Definition sort_key (it : item) : outcome Z :=
  v ← getitem it (py "creation_date");
  match v with
  | PyStr s => to_dt s
  | _ => Raise AttributeError
  end.

(** The body of the loop over [enumerate(ordered, 1)]. *)
Definition make_row (p : Z * item) : outcome Row :=
  let '(pos, it) := p in
  team ← py_strip (get it TEAM_NAME_COL (PyStr []));
  village ← py_strip (get it VILLAGE_COL (PyStr []));
  paid ← py_in LABEL_PAID (get it (py "label_names") (PyList []));
  Ok (pos, render team village paid, paid).

(** [make_rows], given [payload.get("data", [])]. *)
Definition make_rows (items : list item) : outcome (list Row) :=
  ordered ← sorted sort_key items;
  mapM_outcome make_row (enumerate 1 ordered).

End RowBuilder.

(* ================================================================== *)
(** ** Fingerprinter ([CampflowAPI.fingerprint]) *)
(* ================================================================== *)

Module Json.

Definition hex_digit (n : N) : N := (if n <? 10 then 48 + n else 87 + n)%N.

(** [\uXXXX] *)
Definition u_escape (c : N) : pystr :=
  [92; 117; hex_digit (c / 4096 mod 16); hex_digit (c / 256 mod 16);
   hex_digit (c / 16 mod 16); hex_digit (c mod 16)]%N.

(** One character of a string under [ensure_ascii=True]: the quote and
    the backslash are escaped, the usual control characters have short
    escapes, printable ASCII stands for itself, everything else becomes
    [\uXXXX], as a surrogate pair beyond the basic plane. *)
Definition escape_char (c : N) : pystr :=
  (if c =? 34 then [92; 34]
   else if c =? 92 then [92; 92]
   else if c =? 10 then [92; 110]
   else if c =? 13 then [92; 114]
   else if c =? 9 then [92; 116]
   else if c =? 12 then [92; 102]
   else if c =? 8 then [92; 98]
   else if (32 <=? c) && (c <=? 126) then [c]
   else if c <? 65536 then u_escape c
   else let v := c - 65536 in
        u_escape (N.lor 55296 (N.land (N.shiftr v 10) 1023))
        ++ u_escape (N.lor 56320 (N.land v 1023)))%N.

Definition dumps_str (s : pystr) : pystr :=
  [34%N] ++ flat_map escape_char s ++ [34%N].

Definition dumps_int (z : Z) : pystr :=
  bytes_of_string (NilZero.string_of_int (Z.to_int z)).

Definition dumps_bool (b : bool) : pystr :=
  if b then py "true" else py "false".

(** A tuple is written as an array. *)
Definition dumps_row (r : Row) : pystr :=
  let '(pos, text, paid) := r in
  py "[" ++ dumps_int pos ++ py "," ++ dumps_str text ++ py ","
    ++ dumps_bool paid ++ py "]".

Fixpoint join (sep : pystr) (l : list pystr) : pystr :=
  match l with
  | [] => []
  | [x] => x
  | x :: l' => x ++ sep ++ join sep l'
  end.

(** [json.dumps(rows, separators=(",", ":"), sort_keys=True)]; there is
    no dict in [rows], so neither [":"] nor [sort_keys] shows. *)
Definition dumps (rows : list Row) : pystr :=
  py "[" ++ join (py ",") (map dumps_row rows) ++ py "]".

(** UTF-8 of one code point; a lone surrogate cannot be encoded. *)
Definition encode_char (c : N) : outcome (list N) :=
  (if c <? 128 then Ok [c]
   else if c <? 2048 then Ok [192 + c / 64; 128 + c mod 64]
   else if (55296 <=? c) && (c <=? 57343) then Raise UnicodeEncodeError
   else if c <? 65536
        then Ok [224 + c / 4096; 128 + c / 64 mod 64; 128 + c mod 64]
        else Ok [240 + c / 262144; 128 + c / 4096 mod 64;
                 128 + c / 64 mod 64; 128 + c mod 64])%N.

(** [s.encode()] *)
Definition encode (s : pystr) : outcome (list N) :=
  bs ← mapM_outcome encode_char s; Ok (List.concat bs).

End Json.

Section Fingerprint.

(** [hashlib.sha256(b).hexdigest()], from the bytes to the 64
    hexadecimal characters. *)
Variable sha256_hexdigest : list N -> pystr.

Definition fingerprint (rows : list Row) : outcome pystr :=
  bs ← Json.encode (Json.dumps rows); Ok (sha256_hexdigest bs).

End Fingerprint.

(* ================================================================== *)
(** ** The sheet as the reconciler sees it *)
(* ================================================================== *)

(** A Python [dict] with string keys: keys are unique, iteration follows
    the order of first insertion. *)
Module Dict.

Abbreviation dict V := (list (pystr * V)).

(** [d.get(k)] *)
Fixpoint dget {V} (d : dict V) (k : pystr) : option V :=
  match d with
  | [] => None
  | (k', v) :: d' => if eqb k' k then Some v else dget d' k
  end.

(** [d[k] = v]: replaces the value of an existing key where it
    stands, appends a new key. *)
Fixpoint dset {V} (d : dict V) (k : pystr) (v : V) : dict V :=
  match d with
  | [] => [(k, v)]
  | (k', v') :: d' =>
      if eqb k' k then (k', v) :: d' else (k', v') :: dset d' k v
  end.

(** [k in d] *)
Definition dmem {V} (d : dict V) (k : pystr) : bool :=
  match dget d k with
  | Some _ => true
  | None => false
  end.

Definition keys {V} (d : dict V) : list pystr := d.*1.

End Dict.
Export Dict.

(** The value [_read_sheet] stores under a team name:
    [{"row": idx, "pos": pos, "paid": paid, "text": cell}]. *)
Record meta : Type := mk_meta {
  meta_row : Z;
  meta_pos : Z;
  meta_paid : bool;
  meta_text : pystr
}.

(** The inner function [is_paid] of [_read_sheet]. *)
Definition is_paid (c : pystr) : bool :=
  endswith c (py "– bestätigt") || endswith c (py "- bestätigt").

Section Sheet.

(** [int(c)] on a cell of column A; [None] stands for [ValueError]. *)
Variable int : pystr -> option Z.

(** [self.reserved] *)
Variable reserved : Z.

(** One iteration of the loop of [_read_sheet] over
    [enumerate(rows, start=2)]. *)
Definition read_row (out : dict meta) (p : Z * list pystr) : dict meta :=
  let '(idx, row) := p in
  if (idx =? reserved + 2) || (idx =? reserved + 3) || (idx =? reserved + 4)
  then out
  else
    match row with
    | [] => out
    | c0 :: rest =>
        let cell := match rest with
                    | c1 :: _ => c1
                    | [] => []
                    end in
        if eqb (strip cell) (py "Warteliste") then out
        else
          let team := if contains cell (py " aus ")
                      then split_first cell (py " aus ")
                      else cell in
          let paid := is_paid cell in
          let pos := default 0 (int c0) in
          dset out team (mk_meta idx pos paid cell)
    end.

(** [_read_sheet], given [res.get("values", [])]. *)
Definition _read_sheet (values : list (list pystr)) : dict meta :=
  foldl read_row [] (enumerate 2 values).

End Sheet.

(* ================================================================== *)
(** ** Reconciler (steps 3 and 4 of the loop in [main]) *)
(* ================================================================== *)

(** What is written to the two cells of a row: [[pos, text]] or
    [["", ""]]. *)
Inductive cells : Type :=
| Cells (pos : Z) (text : pystr)
| Blank.

Definition Update : Type := Z * cells.
Definition ColorInstruction : Type := Z * option bool.

#[global] Instance cells_eq_dec : EqDecision cells.
Proof. solve_decision. Defined.

Section Reconciler.

Variable reserved : Z.
Variable current : dict meta.

(** [for pos, text, paid in rows: ...] *)
Definition upsert_step
    (st : list Update * list ColorInstruction * gset pystr) (r : Row)
  : list Update * list ColorInstruction * gset pystr :=
  let '(updates, formats, seen) := st in
  let '(pos, text, paid) := r in
  let row_idx := row_for_position reserved pos in
  let team := split_first text (py " aus ") in
  let seen := {[team]} ∪ seen in
  let updates :=
    match dget current team with
    | Some m =>
        if negb (eqb (meta_text m) text)
        then updates ++ [(row_idx, Cells pos text)]
        else updates
    | None => updates ++ [(row_idx, Cells pos text)]
    end in
  (updates, formats ++ [(row_idx, Some paid)], seen).

(** [for team, meta in current.items(): if team not in seen: ...] *)
Definition clear_step (seen : gset pystr)
    (st : list Update * list ColorInstruction) (kv : pystr * meta)
  : list Update * list ColorInstruction :=
  let '(updates, formats) := st in
  let '(team, m) := kv in
  if decide (team ∉ seen)
  then (updates ++ [(meta_row m, Blank)], formats ++ [(meta_row m, None)])
  else st.

Definition reconcile (rows : list Row) : list Update * list ColorInstruction :=
  let '(updates, formats, seen) := foldl upsert_step ([], [], ∅) rows in
  foldl (clear_step seen) (updates, formats) current.

End Reconciler.

(* ================================================================== *)
(** ** Sync loop ([main]) *)
(* ================================================================== *)

(** What one iteration does to the outside, in order. *)
Inductive event : Type :=
| EvFetch                                   (* GET lists/<event>/persons *)
| EvSheetRead                               (* values().get *)
| EvBatchWrite (updates : list Update)      (* values().batchUpdate *)
| EvColour (formats : list ColorInstruction) (* batchUpdate of repeatCell *)
| EvPrint
| EvSleep.


(** What the collaborators answer when they are called during one
    iteration. *)
Record world : Type := mk_world {
  w_fetch : outcome (list item);             (* [self._fetch(...)["data"]] *)
  w_snapshot : outcome unit;                 (* [self._maybe_snapshot(...)], the CSV file *)
  w_values : outcome (list (list pystr));    (* the cells [A2:B] *)
  w_batch_write : outcome unit;
  w_colour : outcome unit
}.

(** Computations that log events and may raise. *)
Definition io (A : Type) : Type := list event * outcome A.

#[global] Instance io_ret : MRet io := fun _ a => ([], Ok a).
#[global] Instance io_bind : MBind io := fun _ _ f m =>
  let '(log, o) := m in
  match o with
  | Ok a => let '(log', o') := f a in (log ++ log', o')
  | Raise e => (log, Raise e)
  end.

(** A call to the outside: the event, then the answer. *)
Definition call {A} (e : event) (answer : outcome A) : io A := ([e], answer).

(** A computation without effect on the outside. *)
Definition pure {A} (o : outcome A) : io A := ([], o).

Section SyncLoop.

Variable local_utcoffset : Z -> Z.
Variable sha256_hexdigest : list N -> pystr.
Variable int : pystr -> option Z.
Variable reserved : Z.

(** [fetch_persons]: fetch, strip cancellations, snapshot. *)
Definition fetch_persons (w : world) : io (list item) :=
  data ← call EvFetch (w_fetch w);
  let data :=
    filter (fun d : item => negb (truthy (get d (py "cancellation_date") PyNone)) = true)
           data in
  _ ← pure (w_snapshot w);
  mret data.

(** [sheet.get_current()] *)
Definition get_current (w : world) : io (dict meta) :=
  values ← call EvSheetRead (w_values w);
  mret (_read_sheet int reserved values).

(** [_batch_write] and [_colour_rows]: nothing is sent for an empty
    list. *)
Definition _batch_write (w : world) (updates : list Update) : io unit :=
  match updates with
  | [] => mret tt
  | _ => call (EvBatchWrite updates) (w_batch_write w)
  end.

Definition _colour_rows (w : world) (formats : list ColorInstruction) : io unit :=
  match formats with
  | [] => mret tt
  | _ => call (EvColour formats) (w_colour w)
  end.

(** [sheet.apply_changes(updates, formats)] *)
Definition apply_changes (w : world) (updates : list Update)
    (formats : list ColorInstruction) : io unit :=
  _ ← _batch_write w updates;
  _colour_rows w formats.

(** How the [try] block ends when nothing is raised. *)
Inductive attempt_result : Type :=
| Skipped                 (* [continue] after the fingerprint test *)
| Synced (fp : pystr).    (* [last_fp = fp] was executed *)

(** The [try] block from the fingerprint test on. *)
Definition sync_if_changed (w : world) (last_fp : option pystr)
    (rows : list Row) (fp : pystr) : io attempt_result :=
  if bool_decide (Some fp = last_fp)
  then
    _ ← call EvSleep (Ok tt);
    mret Skipped
  else
    current ← get_current w;
    let '(updates, formats) := reconcile reserved current rows in
    _ ← apply_changes w updates formats;
    _ ← call EvPrint (Ok tt);
    mret (Synced fp).

(** The [try] block. *)
Definition attempt (w : world) (last_fp : option pystr) : io attempt_result :=
  payload ← fetch_persons w;
  rows ← pure (make_rows local_utcoffset payload);
  fp ← pure (fingerprint sha256_hexdigest rows);
  sync_if_changed w last_fp rows fp.

(** The loop variable between two iterations, or the exception that
    left the loop. *)
Inductive loop_state : Type :=
| Running (last_fp : option pystr)
| Stopped (e : exn).

(** One iteration of [while True]. *)
Definition tick (w : world) (last_fp : option pystr) : list event * loop_state :=
  match attempt w last_fp with
  | (log, Ok Skipped) => (log, Running last_fp)
  | (log, Ok (Synced fp)) => (log ++ [EvSleep], Running (Some fp))
  | (log, Raise e) =>
      if is_Exception e
      then (log ++ [EvPrint; EvSleep], Running last_fp)
      else (log, Stopped e)
  end.

(** The loop, as far as the answers [ws] reach. *)
Fixpoint run (ws : list world) (last_fp : option pystr) : list event * loop_state :=
  match ws with
  | [] => ([], Running last_fp)
  | w :: ws' =>
      match tick w last_fp with
      | (log, Running fp) =>
          let '(log', st) := run ws' fp in (log ++ log', st)
      | (log, Stopped e) => (log, Stopped e)
      end
  end.

(** [main] starts with [last_fp = None]. *)
Definition main (ws : list world) : list event * loop_state := run ws None.

End SyncLoop.

From Stdlib Require DecimalPos DecimalZ.

(* ================================================================== *)
(** ** CSV snapshot: flattening a record ([_flatten]) *)
(* ================================================================== *)

Module Flatten.

(** One character of a string under [ensure_ascii=False]: the quote,
    the backslash and the control characters are escaped, everything
    else stands for itself. *)
Definition escape_char (c : N) : pystr :=
  (if c =? 34 then [92; 34]
   else if c =? 92 then [92; 92]
   else if c =? 10 then [92; 110]
   else if c =? 13 then [92; 114]
   else if c =? 9 then [92; 116]
   else if c =? 12 then [92; 102]
   else if c =? 8 then [92; 98]
   else if c <? 32 then Json.u_escape c
   else [c])%N.

Definition dumps_str (s : pystr) : pystr :=
  [34%N] ++ flat_map escape_char s ++ [34%N].

(** [json.dumps(v, ensure_ascii=False)], with the default separators
    [", "] and [": "]. *)
Fixpoint dumps (v : pyval) : pystr :=
  match v with
  | PyNone => py "null"
  | PyBool b => Json.dumps_bool b
  | PyInt z => Json.dumps_int z
  | PyStr s => dumps_str s
  | PyList l => py "[" ++ Json.join (py ", ") (map dumps l) ++ py "]"
  | PyDict d =>
      py "{"
      ++ Json.join (py ", ")
           (map (fun kv => let '(k, x) := kv in dumps_str k ++ py ": " ++ dumps x) d)
      ++ py "}"
  end.

(** [isinstance(v, (str, int, float, bool)) or v is None] *)
Definition is_scalar (v : pyval) : bool :=
  match v with
  | PyList _ | PyDict _ => false
  | _ => true
  end.

(** [str(v)] for a scalar. *)
Definition str (v : pyval) : pystr :=
  match v with
  | PyNone => py "None"
  | PyBool b => if b then py "True" else py "False"
  | PyInt z => Json.dumps_int z
  | PyStr s => s
  | PyList _ | PyDict _ => []     (* not reached: [str] is applied to scalars only *)
  end.

(** [v is None] *)
Definition is_None (v : pyval) : bool :=
  match v with
  | PyNone => true
  | _ => false
  end.

(** The string a list becomes. *)
Definition join_list (val : list pyval) : pystr :=
  if forallb is_scalar val
  then Json.join (py ";") (map (fun v => if is_None v then [] else str v) val)
  else Json.join (py ";") (map dumps val).

(** [out.update(other)] *)
Definition update (out other : dict pyval) : dict pyval :=
  foldl (fun o kv => dset o kv.1 kv.2) out other.

(** [f"{parent}{sep}{key}" if parent else key] *)
Definition new_key_of (parent sep key : pystr) : pystr :=
  match parent with
  | [] => key
  | _ => parent ++ sep ++ key
  end.

(** The body of the loop of [_flatten] for one [(key, val)] of
    [obj.items()]; the call [_flatten(val, new_key, sep)] is the same
    loop over the items of [val], from an empty dict. *)
Fixpoint flatten_entry (sep parent : pystr) (out : dict pyval)
    (key : pystr) (val : pyval) {struct val} : dict pyval :=
  let new_key := new_key_of parent sep key in
  match val with
  | PyDict d =>
      update out
        (foldl (fun o kv => let '(k, x) := kv in flatten_entry sep new_key o k x) [] d)
  | PyList l => dset out new_key (PyStr (join_list l))
  | _ => dset out new_key val
  end.

(** [_flatten(obj, parent, sep)]; [obj] lists its items in the order of
    the dict. *)
Definition _flatten (obj : dict pyval) (parent sep : pystr) : dict pyval :=
  foldl (fun o kv => let '(k, x) := kv in flatten_entry sep parent o k x) [] obj.

End Flatten.

(* ================================================================== *)
(** ** The base URL ([CampflowAPI.__init__]) *)
(* ================================================================== *)

(** [s.lstrip(chars)] and [s.rstrip(chars)] *)
Fixpoint lstrip_chars (chars s : pystr) : pystr :=
  match s with
  | [] => []
  | c :: s' => if has_char c chars then lstrip_chars chars s' else s
  end.

Definition rstrip_chars (chars s : pystr) : pystr :=
  rev (lstrip_chars chars (rev s)).

(** [self.base_url = base_url.rstrip("/") + "/"] *)
Definition base_url_of (base_url : pystr) : pystr :=
  rstrip_chars (py "/") base_url ++ py "/".

(* ================================================================== *)
(** ** The single-file version ([old.py]): [persons] *)
(* ================================================================== *)

Module Old.

Section Persons.

(** The test [counter * POLL_SECONDS >= 10] on the module's counter. *)
Variable due : Z -> bool.

(** [d["cancellation_date"] == ""] *)
Definition not_cancelled (d : item) : outcome bool :=
  v ← getitem d (py "cancellation_date");
  Ok (str_eq_val [] v).

(** [[d for d in data["data"] if d["cancellation_date"] == ""]] *)
Fixpoint keep_active (data : list item) : outcome (list item) :=
  match data with
  | [] => Ok []
  | d :: data' =>
      b ← not_cancelled d;
      rest ← keep_active data';
      Ok (if b : bool then d :: rest else rest)
  end.

(** [save_persons_to_csv]: an empty list is refused, anything else is
    written to the file. *)
Definition save_persons_to_csv (w : world) (persons : list item) : io unit :=
  match persons with
  | [] => pure (Raise ValueError)
  | _ => pure (w_snapshot w)
  end.

(** [persons], from the value of [counter] to the records and the new
    value of [counter]. *)
Definition persons (counter : Z) (w : world) : io (list item * Z) :=
  data ← call EvFetch (w_fetch w);
  data ← pure (keep_active data);
  counter ← (if due counter
             then (_ ← save_persons_to_csv w data; mret 0) : io Z
             else mret counter);
  mret (data, counter + 1).

End Persons.

End Old.

(* ================================================================== *)
(** ** Vocabulary of the specification *)
(* ================================================================== *)

(** The team name of a text: what precedes the first [" aus "]. *)
Definition team_of (text : pystr) : pystr := split_first text (py " aus ").

Definition row_text (r : Row) : pystr := r.1.2.
Definition row_pos (r : Row) : Z := r.1.1.
Definition row_paid (r : Row) : bool := r.2.

(** The team names of a RowSet. *)
Definition teams (rows : list Row) : list pystr := (team_of ∘ row_text) <$> rows.


Section ReconcilerSpec.

Variable reserved : Z.
Variable current : dict meta.

(** The Update a row asks for: none when its team is stored with the
    same text. *)
Definition upsert_of (r : Row) : list Update :=
  match dget current (team_of (row_text r)) with
  | Some m =>
      if eqb (meta_text m) (row_text r) then []
      else [(row_for_position reserved (row_pos r), Cells (row_pos r) (row_text r))]
  | None => [(row_for_position reserved (row_pos r), Cells (row_pos r) (row_text r))]
  end.

Definition upserts (rows : list Row) : list Update := rows ≫= upsert_of.

Definition colour_of (r : Row) : ColorInstruction :=
  (row_for_position reserved (row_pos r), Some (row_paid r)).

(** The entries of the store whose team is in no row. *)
Definition gone (rows : list Row) : dict meta :=
  filter (λ kv, kv.1 ∉ teams rows) current.

Definition blank_of (kv : pystr * meta) : Update := (meta_row kv.2, Blank).
Definition neutral_of (kv : pystr * meta) : ColorInstruction := (meta_row kv.2, None).

End ReconcilerSpec.

(** The invariant of a store state: it is a dict (no key twice), and no
    two entries sit in the same physical row. *)
Definition store_state (current : dict meta) : Prop :=
  NoDup (keys current) ∧ NoDup (meta_row <$> current.*2).

(* ================================================================== *)
(** ** Sample data *)
(* ================================================================== *)

(** [int()] on a cell that holds decimal digits only, which is what the
    synchroniser itself writes to column A; any other cell is rejected. *)
Definition int_digits (s : pystr) : option Z :=
  match s with
  | [] => None
  | _ => digits_go s 0
  end.

(** A digest to run examples with: it returns its input, every byte as a
    character. *)
Definition plain_digest (bs : list N) : pystr := bs.

(** A machine set to UTC, and one set to UTC+1. *)
Definition utc_machine (wall : Z) : Z := 0.
Definition cet_machine (wall : Z) : Z := 3600000000.

Definition mk_item (created team village : string) (labels : list string) : item :=
  <[py "creation_date" := PyStr (py created)]>
  (<[TEAM_NAME_COL := PyStr (py team)]>
  (<[VILLAGE_COL := PyStr (py village)]>
  (<[py "label_names" := PyList ((PyStr ∘ py) <$> labels)]> ∅))).

(** The two records of the scenario of the specification. *)
Definition falken : item := mk_item "2024-01-02T10:00:00Z" "Falken" "Spelle" [].
Definition adler : item :=
  mk_item "2024-01-01T09:00:00Z" "Adler" "Beesten" ["Bezahlt"%string].

(** A record without [creation_date]. *)
Definition no_date : item :=
  <[TEAM_NAME_COL := PyStr (py "Geier")]> (<[VILLAGE_COL := PyStr (py "Lingen")]> ∅).

Definition adler_row : Row := (1, py "Adler aus Beesten – bestätigt", true).
Definition falken_row : Row := (2, py "Falken aus Spelle – unbestätigt", false).
Definition scenario_rows : list Row := [adler_row; falken_row].

(** A sheet that holds Adler in row 2 and Zebra in row 3. *)
Definition sheet_adler_zebra : list (list pystr) :=
  [[py "1"; py "Adler aus Beesten – bestätigt"];
   [py "2"; py "Zebra aus Lingen – unbestätigt"]].


(* ================================================================== *)
(** ** Vocabulary of the row builder *)
(* ================================================================== *)

(** The string stored under [k], [""] when the key is absent. *)
Definition field_str (it : item) (k : pystr) : pystr :=
  match it !! k with
  | Some (PyStr s) => s
  | _ => []
  end.

(** The label list of a record, empty when the key is absent. *)
Definition labels (it : item) : list pyval :=
  match it !! py "label_names" with
  | Some (PyList l) => l
  | _ => []
  end.

Definition has_paid_label (it : item) : bool :=
  existsb (str_eq_val LABEL_PAID) (labels it).

Definition absent_or_str (o : option pyval) : Prop :=
  o = None ∨ ∃ s, o = Some (PyStr s).

Definition absent_or_list (o : option pyval) : Prop :=
  o = None ∨ ∃ l, o = Some (PyList l).

Section RowBuilderSpec.

Variable local_utcoffset : Z → Z.

(** The sort key of a record: the instant that the code's [to_dt]
    computes for its creation timestamp on this machine, in microseconds
    since 0001-01-01T00:00:00 UTC (0 when [to_dt] raises).  It is the
    code's key, not the specification's normalised UTC timestamp: the
    two differ for the timestamps that [to_dt] reads in local time. *)
Definition created (it : item) : Z :=
  match sort_key local_utcoffset it with
  | Ok t => t
  | Raise _ => 0
  end.

(** A record as the data model describes it: a creation timestamp that
    [to_dt] accepts, team and village names that are strings, labels
    that are a list; the last three may be missing. *)
Definition well_formed (it : item) : Prop :=
  (∃ s t, it !! py "creation_date" = Some (PyStr s) ∧ to_dt local_utcoffset s = Ok t)
  ∧ absent_or_str (it !! TEAM_NAME_COL)
  ∧ absent_or_str (it !! VILLAGE_COL)
  ∧ absent_or_list (it !! py "label_names").

(** The row of a record that stands at position [pos]. *)
Definition row_of (pos : Z) (it : item) : Row :=
  (pos,
   render (strip (field_str it TEAM_NAME_COL)) (strip (field_str it VILLAGE_COL))
          (has_paid_label it),
   has_paid_label it).

(** A record with its sort key. *)
Definition tag (it : item) : Z * item := (created it, it).

(** The order in which [make_rows] takes the records. *)
Definition ordered_of (items : list item) : list item :=
  (sort_by_key (tag <$> items)).*2.

End RowBuilderSpec.

(** The order of the sort keys. *)
Definition key_le {A} (p q : Z * A) : Prop := p.1 <= q.1.

(* ================================================================== *)
(** ** Vocabulary of the sync loop *)
(* ================================================================== *)

Section SyncLoopSpec.

Variable local_utcoffset : Z → Z.
Variable sha256_hexdigest : list N → pystr.
Variable int : pystr → option Z.
Variable reserved : Z.

(** The iteration gets as far as the fingerprint test: the fetch and the
    row building succeed with [rows], whose fingerprint is [fp]. *)
Definition new_fingerprint (w : world) (rows : list Row) (fp : pystr) : Prop :=
  ∃ items, (fetch_persons w).2 = Ok items
           ∧ make_rows local_utcoffset items = Ok rows
           ∧ fingerprint sha256_hexdigest rows = Ok fp.

(** The sheet is read and the reconciler produces [out] for [rows]. *)
Definition instructions (w : world) (rows : list Row)
    (out : list Update * list ColorInstruction) : Prop :=
  ∃ values, w_values w = Ok values
            ∧ out = reconcile reserved (_read_sheet int reserved values) rows.

(** [e] is raised by the fetch. *)
Definition raised_in_fetch (w : world) (e : exn) : Prop :=
  (fetch_persons w).2 = Raise e.

(** [e] is raised by the row building. *)
Definition raised_in_build (w : world) (e : exn) : Prop :=
  ∃ items, (fetch_persons w).2 = Ok items ∧ make_rows local_utcoffset items = Raise e.

(** [e] is raised by the read of the sheet, which a changed fingerprint
    leads to. *)
Definition raised_in_read (w : world) (last_fp : option pystr) (e : exn) : Prop :=
  ∃ rows fp, new_fingerprint w rows fp ∧ Some fp ≠ last_fp ∧ w_values w = Raise e.

(** [e] is raised by the apply. *)
Definition raised_in_apply (w : world) (last_fp : option pystr) (e : exn) : Prop :=
  ∃ rows fp out, new_fingerprint w rows fp ∧ Some fp ≠ last_fp
                 ∧ instructions w rows out
                 ∧ (apply_changes w out.1 out.2).2 = Raise e.

End SyncLoopSpec.

(** The records that [fetch_persons] keeps. *)
Definition active (data : list item) : list item :=
  filter (λ d : item, negb (truthy (get d (py "cancellation_date") PyNone)) = true) data.

(** A record that the sort key cannot be computed for: [creation_date]
    is missing, is not a string, or is not a timestamp that [to_dt]
    accepts. *)
Definition malformed (local_utcoffset : Z → Z) (it : item) : Prop :=
  ∃ e, sort_key local_utcoffset it = Raise e.

(** A payload with a good and a malformed record, and an empty sheet. *)
Definition world_with (data : list item) : world :=
  mk_world (Ok data) (Ok tt) (Ok []) (Ok tt) (Ok tt).

(** The fingerprint of Adler's row under [plain_digest]. *)
Definition adler_fp : pystr := Json.dumps [adler_row].


(* ================================================================== *)
(** ** Vocabulary of the fingerprinter *)
(* ================================================================== *)

(** Two RowSets hold the same triples in the same order. *)
Definition same_rows (R1 R2 : list Row) : Prop :=
  Forall2 (λ r1 r2, row_pos r1 = row_pos r2 ∧ row_text r1 = row_text r2
                    ∧ row_paid r1 = row_paid r2) R1 R2.

Definition ascii_only (s : pystr) : Prop := Forall (λ c, (c < 128)%N) s.

(** The instant of a UTC wall-clock reading, in microseconds since
    0001-01-01T00:00:00 UTC. *)
Definition instant (y m d hh mm ss : Z) : Z :=
  wall_micros (mk_datetime y m d hh mm ss 0 (Some 0)).

(** The characters that start a UTC offset. *)
Definition is_sign (c : N) : bool := (c =? PLUS)%N || (c =? DASH)%N.

(* ================================================================== *)
(** ** Vocabulary of the further properties *)
(* ================================================================== *)

(** The rows of the separator block: two blank rows and the waiting
    list label, right after the reserved block and its header. *)
Definition separator_row (reserved row : Z) : Prop :=
  reserved + 2 <= row <= reserved + 4.

(** The second cell of a sheet row, [""] when there is none: the
    [cell] of [_read_sheet]. *)
Definition cell_of (row : list pystr) : pystr :=
  match row with
  | _ :: c1 :: _ => c1
  | _ => []
  end.

(** A sheet row that [_read_sheet] turns into an entry: not in the
    separator block, not empty, not the waiting list label. *)
Definition readable (reserved : Z) (idx : Z) (row : list pystr) : Prop :=
  ¬ separator_row reserved idx ∧ row ≠ [] ∧ strip (cell_of row) ≠ py "Warteliste".

(** [bool(d.get("cancellation_date"))] *)
Definition cancelled (d : item) : Prop :=
  truthy (get d (py "cancellation_date") PyNone) = true.

(** The same answers, another payload. *)
Definition with_payload (w : world) (data : list item) : world :=
  mk_world (Ok data) (w_snapshot w) (w_values w) (w_batch_write w) (w_colour w).





(** The entry [_read_sheet] stores for the sheet row [idx]. *)
Definition entry_of (int : pystr -> option Z) (idx : Z) (row : list pystr) : meta :=
  mk_meta idx (default 0 (int (hd [] row))) (is_paid (cell_of row)) (cell_of row).

(** A sheet with the team Adler in rows 2 and 3. *)
Definition sheet_adler_twice : list (list pystr) :=
  [[py "1"; py "Adler aus Beesten – bestätigt"];
   [py "2"; py "Adler aus Lingen – unbestätigt"]].

(** A cancelled registration. *)
Definition zebra_cancelled : item :=
  <[py "cancellation_date" := PyStr (py "2024-01-03T08:00:00Z")]>
  (mk_item "2024-01-01T08:00:00Z" "Zebra" "Lingen" []).

(** The payload arrives, the sheet cannot be read. *)
Definition world_sheet_down (data : list item) : world :=
  mk_world (Ok data) (Ok tt) (Raise HttpError) (Raise HttpError) (Raise HttpError).

(** Ctrl-C during the fetch. *)
Definition world_interrupted : world :=
  mk_world (Raise KeyboardInterrupt) (Ok tt) (Ok []) (Ok tt) (Ok tt).

(** A dict without nested values: neither a dict nor a list under any
    key. *)
Definition flat (d : dict pyval) : Prop :=
  Forall (λ kv : pystr * pyval, Flatten.is_scalar kv.2 = true) d.

(** A record with a nested object, a list of scalars and a list of
    objects. *)
Definition nested_person : dict pyval :=
  [(py "id", PyInt 7);
   (py "name", PyDict [(py "first", PyStr (py "Tom")); (py "last", PyNone)]);
   (py "label_names", PyList [PyStr (py "Bezahlt"); PyNone; PyBool true]);
   (py "phones", PyList [PyDict [(py "number", PyStr (py "+49"))]])].

(** A Unicode scalar value: a code point that is not a surrogate. *)
Definition unicode_scalar (c : N) : Prop :=
  (c < 55296 ∨ 57343 < c < 1114112)%N.

(** Rows whose texts hold no lone surrogate: texts that UTF-8 can
    encode, as every text decoded from the API's JSON is. *)
Definition encodable (rows : list Row) : Prop :=
  Forall (λ r, Forall unicode_scalar (row_text r)) rows.

(** The two halves of the surrogate pair that [json.dumps] writes for
    the code point [65536 + v]. *)
Definition hi_surrogate (v : N) : N := N.lor 55296 (N.land (N.shiftr v 10) 1023).
Definition lo_surrogate (v : N) : N := N.lor 56320 (N.land v 1023).

(** [unicode_scalar], as a test. *)
Definition is_unicode_scalar (c : N) : bool :=
  ((c <? 55296) || (57343 <? c) && (c <? 1114112))%N.

(** The record carries a string under [cancellation_date]. *)
Definition dated (d : item) : Prop :=
  ∃ s, d !! py "cancellation_date" = Some (PyStr s).

(** An active registration as the API sends it, with an empty
    cancellation date. *)
Definition adler_active : item := <[py "cancellation_date" := PyStr []]> adler.

(** A registration whose cancellation date is [null]. *)
Definition adler_null : item := <[py "cancellation_date" := PyNone]> adler.

(** The cancellation date of the record is the empty string. *)
Definition empty_date (d : item) : bool :=
  match d !! py "cancellation_date" with
  | Some (PyStr []) => true
  | _ => false
  end.

(** An Update that writes a row, as opposed to one that blanks it. *)
Definition is_write (u : Update) : bool :=
  match u.2 with
  | Cells _ _ => true
  | Blank => false
  end.

(* ================================================================== *)
(** ** Strings: basic facts *)
(* ================================================================== *)

Example py_dash : py "–" = [8211%N].
Proof. reflexivity. Qed.

Example py_bestaetigt :
  py "bestätigt" = [98; 101; 115; 116; 228; 116; 105; 103; 116]%N.
Proof. reflexivity. Qed.

Example split_example :
  split (py "Adler aus Beesten aus X") (py " aus ")
  = [py "Adler"; py "Beesten"; py "X"].
Proof. reflexivity. Qed.

Example strip_example : strip (py "  Adler ") = py "Adler".
Proof. reflexivity. Qed.

Lemma eqb_eq (a b : pystr) : eqb a b = true ↔ a = b.
Proof. unfold eqb. apply bool_decide_eq_true. Qed.

Lemma eqb_neq (a b : pystr) : eqb a b = false ↔ a ≠ b.
Proof. unfold eqb. apply bool_decide_eq_false. Qed.

Lemma eqb_refl (a : pystr) : eqb a a = true.
Proof. by apply eqb_eq. Qed.

(* ================================================================== *)
(** ** Dicts *)
(* ================================================================== *)

Lemma dget_Some_elem {V} (d : dict V) k v : dget d k = Some v → (k, v) ∈ d.
Proof.
  induction d as [|[k' v'] d IH]; simpl; [done|].
  destruct (eqb k' k) eqn:E.
  - apply eqb_eq in E as ->. intros [= <-]. left.
  - intros H. right. auto.
Qed.

Lemma dget_None_keys {V} (d : dict V) k : dget d k = None ↔ k ∉ keys d.
Proof.
  unfold keys. induction d as [|[k' v'] d IH]; simpl.
  - split; [intros _; apply not_elem_of_nil | done].
  - destruct (eqb k' k) eqn:E.
    + apply eqb_eq in E as ->. split; [done|]. intros H. exfalso. apply H. left.
    + apply eqb_neq in E. rewrite IH, not_elem_of_cons.
      split; [intros H; split; [congruence | done] | by intros [_ H]].
Qed.

Lemma elem_dget {V} (d : dict V) k v :
  NoDup (keys d) → (k, v) ∈ d → dget d k = Some v.
Proof.
  unfold keys. induction d as [|[k' v'] d IH]; simpl.
  - intros _ H. by apply elem_of_nil in H.
  - intros Hnd H. apply NoDup_cons in Hnd as [Hk Hnd].
    apply elem_of_cons in H as [[= -> ->]|H].
    + by rewrite eqb_refl.
    + destruct (eqb k' k) eqn:E; [|by apply IH].
      apply eqb_eq in E as ->. exfalso. apply Hk.
      apply list_elem_of_fmap. by exists (k, v).
Qed.

Lemma keys_dset {V} (d : dict V) k v :
  keys (dset d k v) = if dmem d k then keys d else keys d ++ [k].
Proof.
  unfold keys, dmem. induction d as [|[k' v'] d IH]; csimpl; [done|].
  destruct (eqb k' k) eqn:E; csimpl; [done|].
  rewrite IH. by destruct (dget d k).
Qed.

Lemma NoDup_keys_dset {V} (d : dict V) k v :
  NoDup (keys d) → NoDup (keys (dset d k v)).
Proof.
  intros Hnd. rewrite keys_dset. unfold dmem.
  destruct (dget d k) eqn:E; [done|].
  apply NoDup_app. split_and!; [done| |apply NoDup_singleton].
  intros x Hx Hx'. apply list_elem_of_singleton in Hx' as ->.
  by apply dget_None_keys in E.
Qed.

(** After [d[k] = v] the values are those of [d], one of them possibly
    replaced by [v], or [v] is added. *)
Lemma values_dset {V W} (f : V → W) (d : dict V) k v :
  NoDup (f <$> d.*2) → f v ∉ f <$> d.*2 → NoDup (f <$> (dset d k v).*2).
Proof.
  induction d as [|[k' v'] d IH]; simpl.
  - intros _ _. apply NoDup_singleton.
  - intros Hnd Hv. apply NoDup_cons in Hnd as [Hv' Hnd].
    apply not_elem_of_cons in Hv as [Hne Hv].
    destruct (eqb k' k); simpl.
    + apply NoDup_cons. done.
    + apply NoDup_cons. split; [|by apply IH].
      clear IH Hnd. induction d as [|[k'' v''] d IH]; simpl in *.
      * intros H. apply list_elem_of_singleton in H. congruence.
      * apply not_elem_of_cons in Hv' as [? ?]. apply not_elem_of_cons in Hv as [? ?].
        destruct (eqb k'' k); simpl; rewrite not_elem_of_cons; split; auto.
Qed.

Lemma values_dset_sub {V} (d : dict V) k v x :
  x ∈ (dset d k v).*2 → x = v ∨ x ∈ d.*2.
Proof.
  induction d as [|[k' v'] d IH]; simpl.
  - intros H. apply list_elem_of_singleton in H. by left.
  - destruct (eqb k' k); simpl; rewrite !elem_of_cons; intuition.
Qed.

(* ================================================================== *)
(** ** Lists: counting and distinctness *)
(* ================================================================== *)

Section ListFacts.

Context {A B : Type} `{EqDecision A}.






End ListFacts.

(* ================================================================== *)
(** ** Position mapper *)
(* ================================================================== *)

Lemma row_for_position_inj reserved p q :
  row_for_position reserved p = row_for_position reserved q → p = q.
Proof.
  unfold row_for_position.
  destruct (Z.leb_spec p reserved), (Z.leb_spec q reserved); lia.
Qed.

Lemma row_for_position_not_separator reserved pos :
  ¬ (reserved + 2 <= row_for_position reserved pos <= reserved + 4).
Proof. unfold row_for_position. destruct (Z.leb_spec pos reserved); lia. Qed.

(** C4.  With 72 reserved places the position mapper sends [pos] to
    [pos + 1] for [1 <= pos <= 72] and to [pos + 4] for [pos > 72]; it is
    injective on [1..maxPos], never yields one of the separator rows 74,
    75, 76, and maps 72 to 73 and 73 to 77. *)
Theorem row_for_position_spec :
  (∀ pos, 1 <= pos <= 72 → row_for_position RESERVED pos = pos + 1)
  ∧ (∀ pos, pos > 72 → row_for_position RESERVED pos = pos + 4)
  ∧ (∀ maxPos p q, 1 <= p <= maxPos → 1 <= q <= maxPos →
       row_for_position RESERVED p = row_for_position RESERVED q → p = q)
  ∧ (∀ maxPos pos, 1 <= pos <= maxPos →
       ¬ (74 <= row_for_position RESERVED pos <= 76))
  ∧ row_for_position RESERVED 72 = 73
  ∧ row_for_position RESERVED 73 = 77.
Proof.
  split_and!; try reflexivity.
  - intros pos H. unfold row_for_position, RESERVED.
    destruct (Z.leb_spec pos 72); lia.
  - intros pos H. unfold row_for_position, RESERVED.
    destruct (Z.leb_spec pos 72); lia.
  - intros maxPos p q _ _. apply row_for_position_inj.
  - intros maxPos pos _ H.
    apply (row_for_position_not_separator RESERVED pos). unfold RESERVED in *. lia.
Qed.

Lemma row_for_position_spec_witness :
  row_for_position RESERVED 5 = 6
  ∧ row_for_position RESERVED 100 = 104
  ∧ (row_for_position RESERVED 72 = row_for_position RESERVED 72 → 72 = 72)
  ∧ ¬ (74 <= row_for_position RESERVED 73 <= 76).
Proof.
  destruct row_for_position_spec as (H1 & H2 & H3 & H4 & _).
  split_and!.
  - apply H1. lia.
  - apply H2. lia.
  - apply (H3 80); lia.
  - apply (H4 80). lia.
Defined.

(* ================================================================== *)
(** ** Reconciler *)
(* ================================================================== *)

Section ReconcilerFacts.

Variable reserved : Z.
Variable current : dict meta.

Lemma upsert_step_eq u f s r :
  upsert_step reserved current (u, f, s) r
  = (u ++ upsert_of reserved current r, f ++ [colour_of reserved r],
     {[team_of (row_text r)]} ∪ s).
Proof.
  destruct r as [[pos text] paid].
  unfold upsert_step, upsert_of, colour_of, team_of, row_text, row_pos, row_paid.
  simpl. destruct (dget current _) as [m|]; [|done].
  destruct (eqb (meta_text m) text); simpl; by rewrite ?app_nil_r.
Qed.

(** The first loop, as a whole. *)
Lemma upsert_fold rows u f s :
  foldl (upsert_step reserved current) (u, f, s) rows
  = (u ++ upserts reserved current rows, f ++ (colour_of reserved <$> rows),
     list_to_set (teams rows) ∪ s).
Proof.
  induction rows as [|r rows IH] in u, f, s |- *.
  - simpl. rewrite !app_nil_r. f_equal. set_solver.
  - cbn [foldl]. rewrite upsert_step_eq, IH. unfold upserts. rewrite bind_cons.
    csimpl. rewrite <- !app_assoc. simpl. f_equal. set_solver.
Qed.

(** The second loop, as a whole. *)
Lemma clear_fold (seen : gset pystr) cur u f :
  foldl (clear_step seen) (u, f) cur
  = (u ++ (blank_of <$> filter (λ kv, kv.1 ∉ seen) cur),
     f ++ (neutral_of <$> filter (λ kv, kv.1 ∉ seen) cur)).
Proof.
  induction cur as [|[team m] cur IH] in u, f |- *.
  - simpl. by rewrite !app_nil_r.
  - simpl. rewrite filter_cons. simpl.
    destruct (decide (team ∉ seen)).
    + rewrite IH. csimpl. by rewrite <- !app_assoc.
    + by rewrite IH.
Qed.

(** The reconciler in closed form: the Updates the rows ask for,
    followed by one blanking Update per vanished entry; one
    ColorInstruction per row, followed by one neutral one per vanished
    entry. *)
Lemma reconcile_eq rows :
  reconcile reserved current rows
  = (upserts reserved current rows ++ (blank_of <$> gone current rows),
     (colour_of reserved <$> rows) ++ (neutral_of <$> gone current rows)).
Proof.
  unfold reconcile. rewrite upsert_fold, clear_fold. simpl. unfold gone.
  assert (∀ kv : pystr * meta,
            kv.1 ∉ (list_to_set (teams rows) ∪ ∅ : gset pystr) ↔ kv.1 ∉ teams rows) as Hiff.
  { intros kv. rewrite elem_of_union, elem_of_list_to_set. set_solver. }
  f_equal; f_equal; f_equal; by apply list_filter_iff.
Qed.

Lemma elem_of_upserts u rows :
  u ∈ upserts reserved current rows ↔ ∃ r, r ∈ rows ∧ u ∈ upsert_of reserved current r.
Proof.
  unfold upserts. rewrite list_elem_of_bind. naive_solver.
Qed.

Lemma upsert_of_elem u r :
  u ∈ upsert_of reserved current r ↔
  u = (row_for_position reserved (row_pos r), Cells (row_pos r) (row_text r))
  ∧ (dget current (team_of (row_text r)) = None
     ∨ ∃ m, dget current (team_of (row_text r)) = Some m ∧ meta_text m ≠ row_text r).
Proof.
  unfold upsert_of. destruct (dget current _) as [m|].
  - destruct (eqb (meta_text m) (row_text r)) eqn:E.
    + apply eqb_eq in E. rewrite elem_of_nil. split; [done|].
      intros [_ [?|(m' & [= <-] & ?)]]; done.
    + apply eqb_neq in E. rewrite list_elem_of_singleton.
      split; [intros ->; eauto|by intros [? _]].
  - rewrite list_elem_of_singleton. split; [intros ->; eauto|by intros [? _]].
Qed.



Lemma cells_not_blank (d : dict meta) (r pos : Z) (text : pystr) :
  (r, Cells pos text) ∉ blank_of <$> d.
Proof. intros (x & H & _)%list_elem_of_fmap. done. Qed.

End ReconcilerFacts.

(** C1.  For a row [(pos, text, paid)] of the RowSet, the Update
    [(row_for_position pos, [pos, text])] is among the reconciler's
    Updates exactly when the team of [text] is not in the store or is
    stored with another text; when the team is stored with this very
    text, no Update carries the text. *)
Theorem reconcile_update_iff reserved current (rows : list Row) pos text paid :
  (pos, text, paid) ∈ rows →
  ((row_for_position reserved pos, Cells pos text) ∈ (reconcile reserved current rows).1
   ↔ (dget current (team_of text) = None
      ∨ ∃ m, dget current (team_of text) = Some m ∧ meta_text m ≠ text))
  ∧ (∀ m, dget current (team_of text) = Some m → meta_text m = text →
     ∀ r p, (r, Cells p text) ∉ (reconcile reserved current rows).1).
Proof.
  intros Hin. rewrite reconcile_eq. simpl. split.
  - rewrite elem_of_app, elem_of_upserts. split.
    + intros [(r & Hr & [Hu Hc]%upsert_of_elem)|Hb].
      * injection Hu as _ _ Ht. by rewrite Ht.
      * by apply cells_not_blank in Hb.
    + intros Hc. left. exists (pos, text, paid). split; [done|].
      apply upsert_of_elem. done.
  - intros m Hm Htext r p [(x & Hx & [Hu Hc]%upsert_of_elem)%elem_of_upserts|Hb]%elem_of_app.
    + injection Hu as _ _ Ht. rewrite <- Ht, Hm in Hc.
      destruct Hc as [?|(m' & [= <-] & ?)]; done.
    + by apply cells_not_blank in Hb.
Qed.

Lemma reconcile_update_iff_witness :
  (3, Cells 2 (py "Falken aus Spelle – unbestätigt"))
    ∈ (reconcile 72 (_read_sheet int_digits 72 sheet_adler_zebra) scenario_rows).1.
Proof.
  assert (falken_row ∈ scenario_rows) as Hin by (right; left).
  apply (reconcile_update_iff 72 _ scenario_rows 2 _ false Hin).
  left. vm_compute. reflexivity.
Defined.

(* ================================================================== *)
(** ** The store state that [_read_sheet] returns *)
(* ================================================================== *)

Section SheetFacts.

Variable int : pystr → option Z.
Variable reserved : Z.

(** An iteration leaves the dict alone or stores an entry for the
    row it looks at. *)
Lemma read_row_cases out idx row :
  read_row int reserved out (idx, row) = out
  ∨ ∃ team m, read_row int reserved out (idx, row) = dset out team m ∧ meta_row m = idx.
Proof.
  unfold read_row.
  destruct (_ || _); [by left|].
  destruct row as [|c0 rest]; [by left|].
  destruct (eqb _ _); [by left|].
  right. eauto.
Qed.

Lemma read_sheet_invariant values out start :
  store_state out →
  (∀ m, m ∈ out.*2 → meta_row m < start) →
  store_state (foldl (read_row int reserved) out (enumerate start values)).
Proof.
  induction values as [|row values IH] in out, start |- *; [done|].
  intros [Hk Hr] Hlt. cbn [enumerate foldl].
  destruct (read_row_cases out start row) as [->|(team & m & -> & Hm)].
  - apply IH; [done|]. intros m Hm. specialize (Hlt m Hm). lia.
  - apply IH.
    + split; [by apply NoDup_keys_dset|].
      apply values_dset; [done|].
      intros (m' & Hm' & Hin)%list_elem_of_fmap.
      specialize (Hlt m' Hin). lia.
    + intros m' [->|Hin]%values_dset_sub; [lia|].
      specialize (Hlt m' Hin). lia.
Qed.

(** What is read from the sheet is a store state. *)
Lemma read_sheet_store_state values :
  store_state (_read_sheet int reserved values).
Proof.
  apply read_sheet_invariant.
  - split; apply NoDup_nil_2.
  - intros m Hm. by apply elem_of_nil in Hm.
Qed.

End SheetFacts.

Section Disappearance.

Variable reserved : Z.
Variable current : dict meta.
Hypothesis Hstore : store_state current.





End Disappearance.






(** An empty store: every row is new, nothing is blanked. *)
Lemma reconcile_empty_store reserved (rows : list Row) :
  reconcile reserved [] rows
  = ((λ r, (row_for_position reserved (row_pos r), Cells (row_pos r) (row_text r))) <$> rows,
     (λ r, (row_for_position reserved (row_pos r), Some (row_paid r))) <$> rows).
Proof.
  rewrite reconcile_eq. unfold gone. rewrite filter_nil. simpl. rewrite !app_nil_r.
  reflexivity.
Qed.

(** The stored row of a vanished entry can be the target row of a row
    of the RowSet.  Zebra, stored in row 3, has vanished and Falken is
    new at position 2, whose row is 3: the output holds the Update for
    Falken and, after it, the blanking Update for Zebra, both at row 3. *)
Example reconcile_same_row :
  reconcile 72 (_read_sheet int_digits 72 sheet_adler_zebra) scenario_rows
  = ([(3, Cells 2 (py "Falken aus Spelle – unbestätigt")); (3, Blank)],
     [(2, Some true); (3, Some false); (3, None)]).
Proof. vm_compute. reflexivity. Qed.



(* ================================================================== *)
(** ** Outcomes *)
(* ================================================================== *)

Lemma bind_Ok {A B} (f : A → outcome B) (m : outcome A) b :
  m ≫= f = Ok b ↔ ∃ a, m = Ok a ∧ f a = Ok b.
Proof.
  destruct m as [a|e]; simpl.
  - split; [eauto|]. by intros (a' & [= <-] & ?).
  - split; [done|]. by intros (a' & ? & ?).
Qed.

Lemma mapM_Ok {A B} (f : A → outcome B) l ys :
  mapM_outcome f l = Ok ys ↔ Forall2 (λ x y, f x = Ok y) l ys.
Proof.
  induction l as [|x l IH] in ys |- *; simpl.
  - split; [intros [= <-]; constructor|]. by intros ->%Forall2_nil_inv_l.
  - split.
    + intros (y & Hy & (ys' & Hys & [= <-])%bind_Ok)%bind_Ok.
      constructor; [done|]. by apply IH.
    + intros (y & ys' & Hy & Hys & ->)%Forall2_cons_inv_l.
      apply IH in Hys. by rewrite Hy, Hys.
Qed.

Lemma mapM_fmap {A B} (f : A → outcome B) (g : A → B) l :
  Forall (λ x, f x = Ok (g x)) l → mapM_outcome f l = Ok (g <$> l).
Proof.
  induction 1 as [|x l Hx _ IH]; [done|]. simpl. by rewrite Hx, IH.
Qed.

(** One failing element makes the whole traversal fail, with the
    exception of some failing element. *)
Lemma mapM_Raise {A B} (f : A → outcome B) l x e :
  x ∈ l → f x = Raise e →
  ∃ x' e', x' ∈ l ∧ f x' = Raise e' ∧ mapM_outcome f l = Raise e'.
Proof.
  induction l as [|y l IH]; intros Hx Hf.
  - by apply elem_of_nil in Hx.
  - simpl. destruct (f y) as [b|e'] eqn:Hy.
    + apply elem_of_cons in Hx as [->|Hx]; [congruence|].
      destruct (IH Hx Hf) as (x' & e' & Hx' & Hf' & ->).
      exists x', e'. split_and!; [by right|done|done].
    + exists y, e'. split_and!; [left|done|done].
Qed.

(* ================================================================== *)
(** ** Suffixes *)
(* ================================================================== *)

Lemma startswith_app s t p :
  (length p ≤ length s)%nat → startswith (s ++ t) p = startswith s p.
Proof.
  induction p as [|c p IH] in s |- *; destruct s as [|d s]; simpl; intros Hlen;
    try done; try lia.
  rewrite IH; [done|lia].
Qed.

Lemma endswith_app x k p :
  (length p ≤ length k)%nat → endswith (x ++ k) p = endswith k p.
Proof.
  intros Hlen. unfold endswith. rewrite rev_app_distr.
  apply startswith_app. by rewrite !length_rev.
Qed.

(** The paid parser looks at the last eleven characters only. *)
Lemma is_paid_app x k : (11 ≤ length k)%nat → is_paid (x ++ k) = is_paid k.
Proof.
  intros Hlen. unfold is_paid. by rewrite !endswith_app.
Qed.

(** The text written for a row is read back with the flag it was
    written with, whatever the names are. *)
Lemma is_paid_render team village paid : is_paid (render team village paid) = paid.
Proof.
  unfold render.
  rewrite (app_assoc team), (app_assoc (team ++ _) village).
  rewrite is_paid_app; destruct paid; vm_compute; done || lia.
Qed.

(* ================================================================== *)
(** ** Row builder: the rows *)
(* ================================================================== *)

Section RowBuilderFacts.

Variable local_utcoffset : Z → Z.

Lemma make_row_Ok pos it r :
  make_row (pos, it) = Ok r →
  ∃ team village paid, r = (pos, render team village paid, paid).
Proof.
  unfold make_row.
  intros (team & _ & (village & _ & (paid & _ & [= <-])%bind_Ok)%bind_Ok)%bind_Ok.
  eauto.
Qed.

Lemma make_rows_render items rows r :
  make_rows local_utcoffset items = Ok rows → r ∈ rows →
  ∃ pos team village paid, r = (pos, render team village paid, paid).
Proof.
  unfold make_rows. intros (ordered & _ & Hrows%mapM_Ok)%bind_Ok Hr.
  induction Hrows as [|[pos it] r' l rs Hrow _ IH]; [by apply elem_of_nil in Hr|].
  apply elem_of_cons in Hr as [->|Hr]; [|by apply IH].
  exists pos. by apply make_row_Ok in Hrow.
Qed.

End RowBuilderFacts.

(** C10.  For every row that [make_rows] produces, the paid parser of
    the sheet reader, applied to the row's text, returns the row's paid
    flag. *)
Theorem paid_round_trip local_utcoffset items rows pos text paid :
  make_rows local_utcoffset items = Ok rows →
  (pos, text, paid) ∈ rows →
  is_paid text = paid.
Proof.
  intros Hrows Hr.
  destruct (make_rows_render _ _ _ _ Hrows Hr) as (p & team & village & b & [= -> -> ->]).
  apply is_paid_render.
Qed.

Lemma paid_round_trip_witness :
  is_paid (py "Falken aus Spelle – unbestätigt") = false.
Proof.
  apply (paid_round_trip utc_machine [falken; adler] scenario_rows 2).
  - vm_compute. reflexivity.
  - right. left.
Defined.

(* ================================================================== *)
(** ** [sorted]: a stable sort *)
(* ================================================================== *)

Section Sorting.

Context {A : Type}.

Lemma insert_by_key_perm (x : Z * A) l : insert_by_key x l ≡ₚ x :: l.
Proof.
  induction l as [|y l IH]; simpl; [done|].
  destruct (x.1 <=? y.1); [done|]. rewrite IH. apply Permutation_swap.
Qed.

Lemma sort_by_key_perm (l : list (Z * A)) : sort_by_key l ≡ₚ l.
Proof.
  unfold sort_by_key. induction l as [|x l IH]; simpl; [done|].
  by rewrite insert_by_key_perm, IH.
Qed.

Lemma insert_by_key_sorted (x : Z * A) l :
  Sorted key_le l → Sorted key_le (insert_by_key x l).
Proof.
  induction 1 as [|y l Hs IH Hhd]; simpl.
  - repeat constructor.
  - destruct (Z.leb_spec x.1 y.1).
    + constructor; [by constructor|]. by constructor.
    + constructor; [done|].
      destruct l as [|z l]; simpl.
      * constructor. unfold key_le. lia.
      * destruct (x.1 <=? z.1).
        -- constructor. unfold key_le. lia.
        -- constructor. by inversion Hhd.
Qed.

Lemma sort_by_key_sorted (l : list (Z * A)) : Sorted key_le (sort_by_key l).
Proof.
  unfold sort_by_key. induction l as [|x l IH]; simpl; [constructor|].
  by apply insert_by_key_sorted.
Qed.

Lemma sort_by_key_strongly_sorted (l : list (Z * A)) :
  StronglySorted key_le (sort_by_key l).
Proof.
  apply Sorted_StronglySorted; [|apply sort_by_key_sorted].
  intros p q r. unfold key_le. lia.
Qed.

(** Inserting [x] leaves the elements of every key in their order and
    puts [x] in front of those of its own key. *)
Lemma insert_by_key_filter t (x : Z * A) l :
  filter (λ p, p.1 = t) (insert_by_key x l) = filter (λ p, p.1 = t) (x :: l).
Proof.
  induction l as [|y l IH]; simpl; [done|].
  destruct (Z.leb_spec x.1 y.1); [done|].
  rewrite (filter_cons _ y), IH, !(filter_cons _ x), (filter_cons _ y).
  destruct (decide (y.1 = t)), (decide (x.1 = t)); try done. lia.
Qed.

(** Stability: the elements of one key keep the order of the input. *)
Lemma sort_by_key_stable t (l : list (Z * A)) :
  filter (λ p, p.1 = t) (sort_by_key l) = filter (λ p, p.1 = t) l.
Proof.
  unfold sort_by_key. induction l as [|x l IH]; simpl; [done|].
  by rewrite insert_by_key_filter, !filter_cons, IH.
Qed.

(** Two lists in key order that hold, for every key, the same elements
    in the same order are equal: whichever stable sort the library
    runs, the result is that of [sort_by_key]. *)
Lemma sorted_stable_unique (l1 l2 : list (Z * A)) :
  StronglySorted key_le l1 → StronglySorted key_le l2 →
  (∀ t, filter (λ p, p.1 = t) l1 = filter (λ p, p.1 = t) l2) →
  l1 = l2.
Proof.
  induction l1 as [|x l1 IH] in l2 |- *; intros Hs1 Hs2 H.
  - destruct l2 as [|y l2]; [done|].
    specialize (H y.1). by rewrite filter_cons_True in H.
  - destruct l2 as [|y l2].
    { specialize (H x.1). by rewrite filter_cons_True in H. }
    apply StronglySorted_inv in Hs1 as [Hs1 Hx].
    apply StronglySorted_inv in Hs2 as [Hs2 Hy].
    rewrite Forall_forall in Hx, Hy.
    assert (y.1 <= x.1) as Hyx.
    { assert (x ∈ filter (λ p, p.1 = x.1) (y :: l2)) as Hin.
      { rewrite <- H, filter_cons_True by done. left. }
      apply list_elem_of_filter in Hin as [_ [->|Hin]%elem_of_cons]; [lia|].
      by apply Hy. }
    assert (x.1 <= y.1) as Hxy.
    { assert (y ∈ filter (λ p, p.1 = y.1) (x :: l1)) as Hin.
      { rewrite H, filter_cons_True by done. left. }
      apply list_elem_of_filter in Hin as [_ [->|Hin]%elem_of_cons]; [lia|].
      by apply Hx. }
    assert (x = y) as <-.
    { specialize (H x.1). rewrite !filter_cons_True in H by lia. congruence. }
    f_equal. apply IH; [done..|]. intros t. specialize (H t).
    rewrite !filter_cons in H. destruct (decide (x.1 = t)); congruence.
Qed.

Lemma zip_fmap_l (f : A → Z) (l : list A) : zip (f <$> l) l = (λ a, (f a, a)) <$> l.
Proof. induction l as [|a l IH]; csimpl; [done|]. by rewrite IH. Qed.

End Sorting.

(* ================================================================== *)
(** ** Row builder: order, positions, texts *)
(* ================================================================== *)

Section RowBuilderOrder.

Variable local_utcoffset : Z → Z.

Local Abbreviation created := (created local_utcoffset).
Local Abbreviation well_formed := (well_formed local_utcoffset).
Local Abbreviation tag := (tag local_utcoffset).
Local Abbreviation ordered_of := (ordered_of local_utcoffset).

Lemma sort_key_well_formed (it : item) :
  well_formed it → sort_key local_utcoffset it = Ok (created it).
Proof.
  intros [(s & t & Hs & Ht) _]. unfold created, sort_key, getitem.
  rewrite Hs. simpl. by rewrite Ht.
Qed.

Lemma make_row_well_formed (pos : Z) (it : item) :
  well_formed it → make_row (pos, it) = Ok (row_of pos it).
Proof.
  intros (_ & Hteam & Hvillage & Hlabels).
  unfold make_row, row_of, has_paid_label, labels, field_str, get.
  destruct Hteam as [->|[s1 ->]], Hvillage as [->|[s2 ->]], Hlabels as [->|[l ->]];
    reflexivity.
Qed.

Lemma has_paid_label_iff (it : item) :
  has_paid_label it = true ↔ PyStr LABEL_PAID ∈ labels it.
Proof.
  unfold has_paid_label. rewrite existsb_exists. split.
  - intros (e & He%list_elem_of_In & Heq). destruct e; try done.
    simpl in Heq. by apply eqb_eq in Heq as <-.
  - intros He. exists (PyStr LABEL_PAID). split; [by apply list_elem_of_In|].
    simpl. apply eqb_refl.
Qed.

(** The loop over [enumerate(ordered, start)]. *)
Lemma make_rows_loop (start : Z) (l : list item) :
  Forall well_formed l →
  ∃ rows, mapM_outcome make_row (enumerate start l) = Ok rows
          ∧ length rows = length l
          ∧ ∀ i it, l !! i = Some it → rows !! i = Some (row_of (start + Z.of_nat i) it).
Proof.
  induction 1 as [|it l Hit _ IH] in start |- *.
  - exists []. by split_and!.
  - destruct (IH (start + 1)) as (rows & Hrows & Hlen & Hnth).
    exists (row_of start it :: rows). cbn [enumerate mapM_outcome].
    rewrite (make_row_well_formed _ _ Hit). simpl. rewrite Hrows. simpl.
    split_and!; [done|by rewrite Hlen|].
    intros [|i] it' Hi; simpl in *.
    + injection Hi as <-. f_equal. f_equal. lia.
    + rewrite (Hnth i it' Hi). f_equal. f_equal. lia.
Qed.

(** [sorted(items, key=...)] on well-formed records. *)
Lemma sorted_well_formed (items : list item) :
  Forall well_formed items →
  sorted (sort_key local_utcoffset) items = Ok ((sort_by_key (tag <$> items)).*2).
Proof.
  intros Hwf. unfold sorted.
  rewrite (mapM_fmap _ created).
  - simpl. by rewrite zip_fmap_l.
  - eapply Forall_impl; [done|]. apply sort_key_well_formed.
Qed.

Lemma sorted_tagged (items : list item) :
  sort_by_key (tag <$> items) = tag <$> (sort_by_key (tag <$> items)).*2.
Proof.
  assert (Forall (λ p, p = tag p.2) (sort_by_key (tag <$> items))) as H.
  { rewrite sort_by_key_perm. apply Forall_fmap, Forall_true. done. }
  induction H as [|p l Hp _ IH]; csimpl; [done|]. by rewrite <- Hp, <- IH.
Qed.

Lemma filter_tag (t : Z) (l : list item) :
  filter (λ p : Z * item, p.1 = t) (tag <$> l) = tag <$> filter (λ it, created it = t) l.
Proof.
  induction l as [|it l IH]; csimpl; [done|].
  rewrite !filter_cons, IH. simpl. by destruct (decide (created it = t)).
Qed.

Lemma strongly_sorted_tag (l : list item) :
  StronglySorted key_le (tag <$> l) → StronglySorted (λ a b, created a <= created b) l.
Proof.
  induction l as [|it l IH]; csimpl; [constructor|].
  intros [Hs Hall]%StronglySorted_inv. constructor; [by apply IH|].
  rewrite Forall_fmap in Hall. eapply Forall_impl; [exact Hall|]. by intros b.
Qed.

Lemma ordered_of_perm (items : list item) : ordered_of items ≡ₚ items.
Proof.
  unfold ordered_of. rewrite sort_by_key_perm.
  rewrite <- list_fmap_compose. by rewrite list_fmap_id.
Qed.

Lemma ordered_of_sorted (items : list item) :
  StronglySorted (λ a b, created a <= created b) (ordered_of items).
Proof.
  apply strongly_sorted_tag. unfold ordered_of. rewrite <- sorted_tagged.
  apply sort_by_key_strongly_sorted.
Qed.

Lemma ordered_of_stable (items : list item) (t : Z) :
  filter (λ it, created it = t) (ordered_of items) = filter (λ it, created it = t) items.
Proof.
  assert (Inj (=) (=) tag) as Hinj by (by intros ?? [= _ ->]).
  apply (inj (fmap tag)). rewrite <- !filter_tag. unfold ordered_of.
  rewrite <- sorted_tagged. apply sort_by_key_stable.
Qed.

Lemma strongly_sorted_tag_2 (l : list item) :
  StronglySorted (λ a b, created a <= created b) l → StronglySorted key_le (tag <$> l).
Proof.
  induction 1 as [|it l _ IH Hall]; csimpl; constructor; [done|].
  rewrite Forall_fmap. eapply Forall_impl; [exact Hall|]. by intros b.
Qed.

(** The order is determined by the three properties: sorted, stable,
    and nothing else. *)
Lemma ordered_of_unique (items ordered : list item) :
  StronglySorted (λ a b, created a <= created b) ordered →
  (∀ t, filter (λ it, created it = t) ordered = filter (λ it, created it = t) items) →
  ordered = ordered_of items.
Proof.
  intros Hs Hst.
  assert (Inj (=) (=) tag) as Hinj by (by intros ?? [= _ ->]).
  apply (inj (fmap tag)). apply sorted_stable_unique.
  - by apply strongly_sorted_tag_2.
  - apply strongly_sorted_tag_2, ordered_of_sorted.
  - intros t. by rewrite !filter_tag, Hst, ordered_of_stable.
Qed.

End RowBuilderOrder.

Lemma render_paid team village :
  render team village true = team ++ py " aus " ++ village ++ py " – bestätigt".
Proof. reflexivity. Qed.

Lemma render_unpaid team village :
  render team village false = team ++ py " aus " ++ village ++ py " – unbestätigt".
Proof. reflexivity. Qed.

(** What [make_rows] does on well-formed records, in terms of the sort
    key that [to_dt] computes on the machine: it returns one row per
    record; the records are taken in ascending order of that key,
    records of equal key in input order; the record at index [i] of that
    order gets position [i + 1], the text
    ["<team> aus <village> – bestätigt"] or ["... – unbestätigt"] with
    both names stripped, and the flag that tells whether ["Bezahlt"] is
    among its labels.  The scenario of the specification comes out as
    stated.  The key is the normalised UTC timestamp only where [to_dt]
    normalises ([to_dt_machine_independent]); the theorem
    [make_rows_misorders_hour_only] below shows the order going wrong
    where it does not. *)
Theorem make_rows_spec :
  (∀ local_utcoffset (items : list item),
     Forall (well_formed local_utcoffset) items →
     ∃ ordered rows,
       make_rows local_utcoffset items = Ok rows
       ∧ ordered ≡ₚ items
       ∧ StronglySorted
           (λ a b, created local_utcoffset a <= created local_utcoffset b) ordered
       ∧ (∀ t, filter (λ it, created local_utcoffset it = t) ordered
               = filter (λ it, created local_utcoffset it = t) items)
       ∧ length rows = length items
       ∧ ∀ (i : nat) (it : item), ordered !! i = Some it →
           let team := strip (field_str it TEAM_NAME_COL) in
           let village := strip (field_str it VILLAGE_COL) in
           ∃ paid text,
             rows !! i = Some (Z.of_nat i + 1, text, paid)
             ∧ (paid = true ↔ PyStr LABEL_PAID ∈ labels it)
             ∧ (paid = true → text = team ++ py " aus " ++ village ++ py " – bestätigt")
             ∧ (paid = false → text = team ++ py " aus " ++ village ++ py " – unbestätigt"))
  ∧ (∀ local_utcoffset,
       make_rows local_utcoffset [falken; adler]
       = Ok [(1, py "Adler aus Beesten – bestätigt", true);
             (2, py "Falken aus Spelle – unbestätigt", false)]).
Proof.
  split; [|intros local_utcoffset; vm_compute; reflexivity].
  intros local_utcoffset items Hwf.
  assert (Forall (well_formed local_utcoffset) (ordered_of local_utcoffset items)) as Hwf'.
  { by rewrite ordered_of_perm. }
  destruct (make_rows_loop local_utcoffset 1 _ Hwf') as (rows & Hrows & Hlen & Hnth).
  exists (ordered_of local_utcoffset items), rows. split_and!.
  - unfold make_rows. rewrite sorted_well_formed by done. exact Hrows.
  - apply ordered_of_perm.
  - apply ordered_of_sorted.
  - intros t. apply ordered_of_stable.
  - by rewrite Hlen, ordered_of_perm.
  - intros i it Hi team village.
    exists (has_paid_label it), (render team village (has_paid_label it)).
    split_and!.
    + etrans; [exact (Hnth i it Hi)|]. unfold row_of. do 3 f_equal. lia.
    + apply has_paid_label_iff.
    + intros ->. apply render_paid.
    + intros ->. apply render_unpaid.
Qed.

Lemma falken_well_formed : well_formed utc_machine falken.
Proof.
  split_and!.
  - exists (py "2024-01-02T10:00:00Z"), 63839786400000000.
    split; vm_compute; reflexivity.
  - right. exists (py "Falken"). vm_compute. reflexivity.
  - right. exists (py "Spelle"). vm_compute. reflexivity.
  - right. exists []. vm_compute. reflexivity.
Defined.

Lemma adler_well_formed : well_formed utc_machine adler.
Proof.
  split_and!.
  - exists (py "2024-01-01T09:00:00Z"), 63839696400000000.
    split; vm_compute; reflexivity.
  - right. exists (py "Adler"). vm_compute. reflexivity.
  - right. exists (py "Beesten"). vm_compute. reflexivity.
  - right. exists [PyStr (py "Bezahlt")]. vm_compute. reflexivity.
Defined.

Lemma make_rows_spec_witness :
  ∃ rows, make_rows utc_machine [falken; adler] = Ok rows ∧ length rows = 2%nat.
Proof.
  destruct make_rows_spec as [H _].
  destruct (H utc_machine [falken; adler]) as (ordered & rows & Hrows & _ & _ & _ & Hlen & _).
  - apply Forall_cons_2; [apply falken_well_formed|].
    apply Forall_cons_2; [apply adler_well_formed | apply Forall_nil_2].
  - exists rows. split; [exact Hrows | exact Hlen].
Defined.

(* ================================================================== *)
(** ** Sync loop *)
(* ================================================================== *)

Section SyncLoopFacts.

Variable local_utcoffset : Z → Z.
Variable sha256_hexdigest : list N → pystr.
Variable int : pystr → option Z.
Variable reserved : Z.

Local Abbreviation tick := (tick local_utcoffset sha256_hexdigest int reserved).
Local Abbreviation attempt := (attempt local_utcoffset sha256_hexdigest int reserved).
Local Abbreviation loop := (run local_utcoffset sha256_hexdigest int reserved).

Lemma io_bind_Raise {A B} (f : A → io B) (m : io A) e :
  m.2 = Raise e → m ≫= f = (m.1, Raise e).
Proof. destruct m as [log o]. simpl. intros ->. reflexivity. Qed.

Lemma io_bind_Ok {A B} (f : A → io B) (m : io A) a :
  m.2 = Ok a → m ≫= f = (m.1 ++ (f a).1, (f a).2).
Proof.
  destruct m as [log o]. simpl. intros ->.
  unfold mbind, io_bind. by destruct (f a).
Qed.

Lemma pure_bind {A B} (f : A → io B) (a : A) : pure (Ok a) ≫= f = f a.
Proof. unfold pure, mbind, io_bind. by destruct (f a). Qed.

Lemma pure_bind_Raise {A B} (f : A → io B) e : pure (Raise e) ≫= f = ([], Raise e).
Proof. reflexivity. Qed.

Lemma fetch_persons_log w : (fetch_persons w).1 = [EvFetch].
Proof.
  unfold fetch_persons, call, pure. destruct (w_fetch w); [|done].
  simpl. by destruct (w_snapshot w).
Qed.

Lemma fetch_persons_Ok w items :
  (fetch_persons w).2 = Ok items ↔
  ∃ data, w_fetch w = Ok data ∧ w_snapshot w = Ok tt ∧ items = active data.
Proof.
  unfold fetch_persons, call, pure, active. destruct (w_fetch w) as [data|e]; simpl.
  - destruct (w_snapshot w) as [[]|e]; simpl.
    + split; [intros [= <-]; eauto|]. by intros (? & [= <-] & _ & ->).
    + split; [done|]. by intros (? & _ & ? & _).
  - split; [done|]. by intros (? & ? & _).
Qed.

(** The fetch or the row building raises: the block ends there. *)
Lemma attempt_fetch_raise w last_fp e :
  raised_in_fetch w e → attempt w last_fp = ([EvFetch], Raise e).
Proof.
  unfold raised_in_fetch, attempt. intros H.
  by rewrite (io_bind_Raise _ _ _ H), fetch_persons_log.
Qed.

Lemma attempt_build_raise w last_fp e :
  raised_in_build local_utcoffset w e → attempt w last_fp = ([EvFetch], Raise e).
Proof.
  unfold attempt. intros (items & Hf & Hrows).
  rewrite (io_bind_Ok _ _ _ Hf), fetch_persons_log.
  by rewrite Hrows, pure_bind_Raise.
Qed.

(** The block up to the fingerprint test. *)
Lemma attempt_new_fingerprint w last_fp rows fp :
  new_fingerprint local_utcoffset sha256_hexdigest w rows fp →
  attempt w last_fp
  = ([EvFetch] ++ (sync_if_changed int reserved w last_fp rows fp).1,
     (sync_if_changed int reserved w last_fp rows fp).2).
Proof.
  unfold attempt. intros (items & Hf & Hrows & Hfp).
  rewrite (io_bind_Ok _ _ _ Hf), fetch_persons_log.
  by rewrite Hrows, pure_bind, Hfp, pure_bind.
Qed.

(** Same fingerprint: fetch, sleep, nothing else. *)
Lemma attempt_skip w rows fp :
  new_fingerprint local_utcoffset sha256_hexdigest w rows fp →
  attempt w (Some fp) = ([EvFetch; EvSleep], Ok Skipped).
Proof.
  intros H. rewrite (attempt_new_fingerprint _ _ _ _ H). unfold sync_if_changed.
  by rewrite bool_decide_eq_true_2.
Qed.

Lemma attempt_read_raise w last_fp e :
  raised_in_read local_utcoffset sha256_hexdigest w last_fp e →
  attempt w last_fp = ([EvFetch; EvSheetRead], Raise e).
Proof.
  intros (rows & fp & H & Hne & Hread).
  rewrite (attempt_new_fingerprint _ _ _ _ H). unfold sync_if_changed.
  rewrite bool_decide_eq_false_2 by done.
  unfold get_current, call. rewrite Hread. reflexivity.
Qed.

(** The block after a changed fingerprint and a successful read. *)
Lemma attempt_apply w last_fp rows fp out :
  new_fingerprint local_utcoffset sha256_hexdigest w rows fp →
  Some fp ≠ last_fp →
  instructions int reserved w rows out →
  (attempt w last_fp).2
  = match (apply_changes w out.1 out.2).2 with
    | Ok _ => Ok (Synced fp)
    | Raise e => Raise e
    end.
Proof.
  intros H Hne (values & Hread & ->).
  rewrite (attempt_new_fingerprint _ _ _ _ H). unfold sync_if_changed.
  rewrite bool_decide_eq_false_2 by done.
  unfold get_current, call. rewrite Hread.
  cbn [mbind io_bind mret io_ret fst snd].
  destruct (reconcile _ _ _) as [u f]. cbn [fst snd].
  destruct (apply_changes w u f) as [log [[]|e]]; reflexivity.
Qed.

Lemma tick_of_raise w last_fp e :
  (attempt w last_fp).2 = Raise e → is_Exception e = true →
  tick w last_fp = ((attempt w last_fp).1 ++ [EvPrint; EvSleep], Running last_fp).
Proof.
  unfold tick. destruct (attempt w last_fp) as [log o]. simpl.
  intros -> ->. reflexivity.
Qed.

Lemma run_cons_running w ws last_fp fp :
  (tick w last_fp).2 = Running fp →
  loop (w :: ws) last_fp = ((tick w last_fp).1 ++ (loop ws fp).1, (loop ws fp).2).
Proof.
  cbn [run]. destruct (tick w last_fp) as [log st]. simpl. intros ->.
  by destruct (loop ws fp).
Qed.
Lemma tick_state w last_fp :
  (tick w last_fp).2
  = match (attempt w last_fp).2 with
    | Ok Skipped => Running last_fp
    | Ok (Synced fp) => Running (Some fp)
    | Raise e => if is_Exception e then Running last_fp else Stopped e
    end.
Proof.
  unfold tick. destruct (attempt w last_fp) as [log [[|fp]|e]]; simpl; [done..|].
  by destruct (is_Exception e).
Qed.

Lemma tick_raise_state w last_fp e fp' :
  (attempt w last_fp).2 = Raise e → (tick w last_fp).2 = Running fp' → fp' = last_fp.
Proof.
  rewrite tick_state. intros ->. destruct (is_Exception e); congruence.
Qed.

(** The loop variable changes only at the end of a complete pass:
    fetch, build, changed fingerprint, read, apply. *)
Lemma tick_changed w last_fp fp' :
  (tick w last_fp).2 = Running fp' → fp' ≠ last_fp →
  ∃ rows fp out,
    new_fingerprint local_utcoffset sha256_hexdigest w rows fp
    ∧ instructions int reserved w rows out
    ∧ (apply_changes w out.1 out.2).2 = Ok tt
    ∧ fp' = Some fp.
Proof.
  intros Hrun Hne.
  destruct (fetch_persons w).2 as [items|e] eqn:Hf.
  2:{ exfalso. apply Hne. eapply tick_raise_state; [|done].
      by rewrite (attempt_fetch_raise w last_fp e). }
  destruct (make_rows local_utcoffset items) as [rows|e] eqn:Hrows.
  2:{ exfalso. apply Hne. eapply tick_raise_state; [|done].
      rewrite (attempt_build_raise w last_fp e); [done|]. by exists items. }
  destruct (fingerprint sha256_hexdigest rows) as [fp|e] eqn:Hfp.
  2:{ exfalso. apply Hne. eapply (tick_raise_state _ _ e); [|done].
      unfold attempt. rewrite (io_bind_Ok _ _ _ Hf).
      by rewrite Hrows, pure_bind, Hfp, pure_bind_Raise. }
  assert (new_fingerprint local_utcoffset sha256_hexdigest w rows fp) as Hnew
    by (by exists items).
  destruct (decide (Some fp = last_fp)) as [<-|Hchanged].
  { exfalso. apply Hne. rewrite tick_state, (attempt_skip _ _ _ Hnew) in Hrun.
    simpl in Hrun. congruence. }
  destruct (w_values w) as [values|e] eqn:Hread.
  2:{ exfalso. apply Hne. eapply (tick_raise_state _ _ e); [|done].
      rewrite (attempt_read_raise w last_fp e); [done|]. by exists rows, fp. }
  set (out := reconcile reserved (_read_sheet int reserved values) rows).
  assert (instructions int reserved w rows out) as Hout by (by exists values).
  rewrite tick_state, (attempt_apply _ _ _ _ _ Hnew Hchanged Hout) in Hrun.
  destruct (apply_changes w out.1 out.2).2 as [[]|e] eqn:Happly.
  - exists rows, fp, out. split_and!; [done..|]. congruence.
  - exfalso. apply Hne. destruct (is_Exception e); congruence.
Qed.

Lemma raised_attempt w last_fp e :
  raised_in_fetch w e
  ∨ raised_in_build local_utcoffset w e
  ∨ raised_in_read local_utcoffset sha256_hexdigest w last_fp e
  ∨ raised_in_apply local_utcoffset sha256_hexdigest int reserved w last_fp e →
  (attempt w last_fp).2 = Raise e.
Proof.
  intros [H|[H|[H|(rows & fp & out & Hnew & Hne & Hout & Happly)]]].
  - by rewrite (attempt_fetch_raise _ _ _ H).
  - by rewrite (attempt_build_raise _ _ _ H).
  - by rewrite (attempt_read_raise _ _ _ H).
  - by rewrite (attempt_apply _ _ _ _ _ Hnew Hne Hout), Happly.
Qed.

End SyncLoopFacts.



(* ================================================================== *)
(** ** Fingerprinter *)
(* ================================================================== *)

Lemma ascii_only_app s t : ascii_only s → ascii_only t → ascii_only (s ++ t).
Proof. unfold ascii_only. intros. by apply Forall_app. Qed.

Lemma ascii_only_bool s : forallb (λ c, c <? 128)%N s = true → ascii_only s.
Proof.
  unfold ascii_only. rewrite forallb_forall, Forall_forall.
  intros H c Hc%list_elem_of_In. apply N.ltb_lt. by apply H.
Qed.

Lemma hex_digit_ascii n : (n < 16)%N → (Json.hex_digit n < 128)%N.
Proof. unfold Json.hex_digit. destruct (N.ltb_spec n 10); lia. Qed.

Lemma u_escape_ascii c : ascii_only (Json.u_escape c).
Proof.
  unfold Json.u_escape, ascii_only.
  repeat (apply Forall_cons_2; [try lia; apply hex_digit_ascii, N.mod_lt; lia|]).
  apply Forall_nil_2.
Qed.

Lemma escape_char_ascii c : ascii_only (Json.escape_char c).
Proof.
  unfold Json.escape_char.
  repeat (destruct (_ =? _)%N; [by apply ascii_only_bool|]).
  destruct (_ && _) eqn:E.
  - apply andb_true_iff in E as [_ E%N.leb_le].
    apply Forall_cons_2; [lia | apply Forall_nil_2].
  - destruct (_ <? _)%N; [apply u_escape_ascii|].
    apply ascii_only_app; apply u_escape_ascii.
Qed.

Lemma dumps_str_ascii s : ascii_only (Json.dumps_str s).
Proof.
  unfold Json.dumps_str. apply ascii_only_app; [by apply ascii_only_bool|].
  apply ascii_only_app; [|by apply ascii_only_bool].
  induction s as [|c s IH]; simpl; [apply Forall_nil_2|].
  apply ascii_only_app; [apply escape_char_ascii | done].
Qed.

Lemma string_of_uint_ascii d :
  ascii_only (bytes_of_string (NilEmpty.string_of_uint d)).
Proof.
  induction d; simpl; try apply Forall_nil_2;
    (apply Forall_cons_2; [vm_compute; reflexivity | done]).
Qed.

Lemma dumps_int_ascii z : ascii_only (Json.dumps_int z).
Proof.
  unfold Json.dumps_int, NilZero.string_of_int, NilZero.string_of_uint.
  destruct (Z.to_int z) as [d|d].
  - destruct d; try apply string_of_uint_ascii. by apply ascii_only_bool.
  - simpl. apply Forall_cons_2; [vm_compute; reflexivity|].
    destruct d; try apply string_of_uint_ascii. by apply ascii_only_bool.
Qed.

Lemma dumps_row_ascii r : ascii_only (Json.dumps_row r).
Proof.
  destruct r as [[pos text] paid]. unfold Json.dumps_row.
  apply ascii_only_app; [by apply ascii_only_bool|].
  apply ascii_only_app; [apply dumps_int_ascii|].
  apply ascii_only_app; [by apply ascii_only_bool|].
  apply ascii_only_app; [apply dumps_str_ascii|].
  apply ascii_only_app; [by apply ascii_only_bool|].
  apply ascii_only_app; [|by apply ascii_only_bool].
  destruct paid; by apply ascii_only_bool.
Qed.

Lemma join_ascii sep l :
  ascii_only sep → Forall ascii_only l → ascii_only (Json.join sep l).
Proof.
  intros Hsep. induction 1 as [|x l Hx Hl IH]; simpl; [apply Forall_nil_2|].
  destruct l; [done|]. apply ascii_only_app; [done|]. by apply ascii_only_app.
Qed.

(** The serialisation consists of ASCII characters only. *)
Lemma dumps_ascii rows : ascii_only (Json.dumps rows).
Proof.
  unfold Json.dumps.
  apply ascii_only_app; [by apply ascii_only_bool|].
  apply ascii_only_app; [|by apply ascii_only_bool].
  apply join_ascii; [by apply ascii_only_bool|].
  apply Forall_fmap, Forall_true, dumps_row_ascii.
Qed.

(** Encoding ASCII text gives the same numbers, as bytes. *)
Lemma encode_ascii s : ascii_only s → Json.encode s = Ok s.
Proof.
  intros Hs. unfold Json.encode.
  rewrite (mapM_fmap _ (λ c, [c])).
  - simpl. f_equal. clear Hs. induction s as [|c s IH]; csimpl; [done|]. by rewrite IH.
  - eapply Forall_impl; [exact Hs|]. intros c Hc. unfold Json.encode_char.
    by apply N.ltb_lt in Hc as ->.
Qed.

Lemma fingerprint_total sha256_hexdigest rows :
  fingerprint sha256_hexdigest rows = Ok (sha256_hexdigest (Json.dumps rows)).
Proof.
  unfold fingerprint. by rewrite encode_ascii by apply dumps_ascii.
Qed.

Lemma same_rows_eq R1 R2 : same_rows R1 R2 → R1 = R2.
Proof.
  induction 1 as [|[[p1 t1] b1] [[p2 t2] b2] R1 R2 (Hp & Ht & Hb) _ IH]; [done|].
  unfold row_pos, row_text, row_paid in *. simpl in *. congruence.
Qed.

(** C8.  Two RowSets that hold the same [(position, text, paid)] triples
    in the same order have the same fingerprint; the fingerprint never
    fails and is the digest of the serialisation of the rows. *)
Theorem fingerprint_deterministic sha256_hexdigest R1 R2 :
  same_rows R1 R2 →
  fingerprint sha256_hexdigest R1 = fingerprint sha256_hexdigest R2
  ∧ fingerprint sha256_hexdigest R1 = Ok (sha256_hexdigest (Json.dumps R1)).
Proof.
  intros <-%same_rows_eq. split; [done|]. apply fingerprint_total.
Qed.

Lemma fingerprint_deterministic_witness :
  fingerprint plain_digest scenario_rows = fingerprint plain_digest [adler_row; falken_row].
Proof.
  apply (fingerprint_deterministic plain_digest scenario_rows [adler_row; falken_row]).
  repeat constructor.
Defined.

(** The serialisation of the scenario, with ['] standing for the double
    quote. *)
Example dumps_scenario :
  Json.dumps scenario_rows
  = (bytes_of_string
       "[[1,'Adler aus Beesten \u2013 best\u00e4tigt',true],[2,'Falken aus Spelle \u2013 unbest\u00e4tigt',false]]"
     ≫= λ c, if (c =? 39)%N then [34%N] else [c]).
Proof. vm_compute. reflexivity. Qed.

(* ================================================================== *)
(** ** Timestamp normalisation *)
(* ================================================================== *)

Lemma of_option_raise {A} (o : option A) e e' :
  of_option e o = Raise e' → e' = e.
Proof. destruct o; simpl; congruence. Qed.

Lemma to_dt_raise_Exception local_utcoffset s e :
  to_dt local_utcoffset s = Raise e → is_Exception e = true.
Proof.
  unfold to_dt. set (s' := if endswith s _ then _ else _).
  destruct (fromisoformat s') as [dt|e'] eqn:Hf; simpl.
  - unfold astimezone_utc. set (t := wall_micros dt - _).
    destruct ((0 <=? t) && _); intros H; [discriminate H|]. by injection H as <-.
  - intros [= <-]. unfold fromisoformat in Hf.
    by apply of_option_raise in Hf as ->.
Qed.

Lemma sort_key_raise_Exception local_utcoffset (it : item) e :
  sort_key local_utcoffset it = Raise e → is_Exception e = true.
Proof.
  unfold sort_key, getitem.
  destruct (it !! py "creation_date") as [v|]; simpl; [|by intros [= <-]].
  destruct v; try (by intros [= <-]). apply to_dt_raise_Exception.
Qed.

Lemma fromisoformat_Ok s dt :
  fromisoformat s = Ok dt →
  ∃ y m d c, parse_isoformat_date (take 10 s) = Some (y, m, d)
    ∧ (if (length s =? 10)%nat then Some (0, 0, 0, 0, None)
       else parse_isoformat_time (drop 11 s)) = Some c
    ∧ dt = mk_datetime y m d c.1.1.1.1 c.1.1.1.2 c.1.1.2 c.1.2 c.2.
Proof.
  unfold fromisoformat, of_option. intros H.
  destruct (parse_isoformat_date (take 10 s)) as [[[y m] d]|]; simpl in H; [|done].
  destruct (if (length s =? 10)%nat then _ else _) as [[[[[hh mm] ss] us] tz]|];
    simpl in H; [|done].
  destruct (check_fields _); [|done]. injection H as <-.
  exists y, m, d, (hh, mm, ss, us, tz). done.
Qed.

Lemma parse_date_dashes d y m dd :
  parse_isoformat_date d = Some (y, m, dd) →
  d !! 4%nat = Some DASH ∧ d !! 7%nat = Some DASH.
Proof. unfold parse_isoformat_date. intros H. by simplify_option_eq. Qed.

Lemma parse_date_day d y m dd :
  parse_isoformat_date d = Some (y, m, dd) → parse_digits 2 (slice 8 10 d) = Some dd.
Proof. unfold parse_isoformat_date. intros H. by simplify_option_eq. Qed.

Lemma digit_not_Z c : is_digit c = true → (90 =? c)%N = false.
Proof.
  unfold is_digit. intros [H1%N.leb_le H2%N.leb_le]%andb_true_iff.
  apply N.eqb_neq. lia.
Qed.

Lemma parse_two_digits a b z : parse_digits 2 [a; b] = Some z → is_digit b = true.
Proof.
  unfold parse_digits. simpl. destruct (is_digit a); [|done]. by destruct (is_digit b).
Qed.

Lemma parse_time_two h1 h2 c :
  parse_isoformat_time [h1; h2] = Some c → c.2 = None ∧ is_digit h2 = true.
Proof.
  unfold parse_isoformat_time. cbn [find_sign]. intros H.
  destruct ((h1 =? PLUS)%N || (h1 =? DASH)%N); [done|].
  destruct ((h2 =? PLUS)%N || (h2 =? DASH)%N); [done|].
  unfold parse_hh_mm_ss_ff, parse_digits in H. simpl in H.
  destruct (is_digit h1); [|done]. destruct (is_digit h2); [|done].
  simpl in H. by injection H as <-.
Qed.

Section NaiveTimestamps.

Variable local_utcoffset : Z → Z.

(** Every timestamp of the form [YYYY-MM-DD] that the library accepts is
    left as it is by [to_dt] and read as local time. *)
Lemma to_dt_date_only s dt :
  length s = 10%nat → fromisoformat s = Ok dt →
  tzinfo dt = None ∧ to_dt local_utcoffset s = astimezone_utc local_utcoffset dt.
Proof.
  intros Hlen Hdt.
  destruct (fromisoformat_Ok _ _ Hdt) as (y & m & d & c & Hdate & Htime & ->).
  rewrite Hlen in Htime. simpl in Htime. injection Htime as <-. split; [done|].
  do 10 (destruct s as [|? s]; [done|]). destruct s; [|done]. simpl in Hdate.
  destruct (parse_date_dashes _ _ _ _ Hdate) as [[= ->] _].
  apply parse_date_day, parse_two_digits, digit_not_Z in Hdate.
  unfold to_dt, endswith. change (py "Z") with [90%N]. simpl rev. cbn [startswith].
  rewrite Hdate. cbn [andb].
  unfold last_n, has_char. cbn [length Nat.sub drop existsb].
  change (DASH =? DASH)%N with true. cbn [orb negb]. rewrite andb_false_r.
  by rewrite Hdt.
Qed.

(** The same for [YYYY-MM-DD*HH]. *)
Lemma to_dt_hour_only s dt :
  length s = 13%nat → fromisoformat s = Ok dt →
  tzinfo dt = None ∧ to_dt local_utcoffset s = astimezone_utc local_utcoffset dt.
Proof.
  intros Hlen Hdt.
  destruct (fromisoformat_Ok _ _ Hdt) as (y & m & d & c & Hdate & Htime & ->).
  rewrite Hlen in Htime. simpl in Htime.
  do 13 (destruct s as [|? s]; [done|]). destruct s; [|done]. simpl in Hdate, Htime.
  destruct (parse_date_dashes _ _ _ _ Hdate) as [_ [= ->]].
  destruct (parse_time_two _ _ _ Htime) as [Htz Hdig%digit_not_Z].
  split; [done|].
  unfold to_dt, endswith. change (py "Z") with [90%N]. simpl rev. cbn [startswith].
  rewrite Hdig. cbn [andb].
  unfold last_n, has_char. cbn [length Nat.sub drop existsb].
  change (DASH =? DASH)%N with true. cbn [orb negb]. rewrite andb_false_r.
  by rewrite Hdt.
Qed.

End NaiveTimestamps.

Lemma find_sign_Some t c : c ∈ t → is_sign c = true → is_Some (find_sign t).
Proof.
  induction t as [|d t IH]; intros Hin Hc; [by apply elem_of_nil in Hin|].
  simpl. destruct ((d =? PLUS)%N || (d =? DASH)%N) eqn:E; [eauto|].
  apply elem_of_cons in Hin as [->|Hin]; [unfold is_sign in Hc; congruence|].
  destruct (IH Hin Hc) as [i ->]. eauto.
Qed.

Lemma no_sign_in_last s n :
  negb (has_char PLUS (last_n n s)) && negb (has_char DASH (last_n n s)) = false →
  ∃ j c, (length s - n ≤ j)%nat ∧ s !! j = Some c ∧ is_sign c = true.
Proof.
  unfold has_char, last_n, is_sign. intros H.
  assert (∃ c, c ∈ drop (length s - n) s ∧ is_sign c = true) as (c & Hin & Hc).
  { apply andb_false_iff in H as [H|H]; apply negb_false_iff, existsb_exists in H;
      destruct H as (c & Hin%list_elem_of_In & Heq%N.eqb_eq); subst c;
      eexists; (split; [exact Hin|]); reflexivity. }
  apply list_elem_of_lookup in Hin as [i Hi]. rewrite lookup_drop in Hi.
  exists (length s - n + i)%nat, c. split_and!; [lia|done|done].
Qed.

Lemma digits_go_Forall l acc z :
  digits_go l acc = Some z → Forall (λ c, is_digit c = true) l.
Proof.
  induction l as [|c l IH] in acc |- *; simpl; [constructor|].
  destruct (is_digit c) eqn:E; [|done]. intros H. constructor; eauto.
Qed.

Lemma digit_not_sign c : is_digit c = true → is_sign c = false.
Proof.
  unfold is_digit, is_sign, PLUS, DASH.
  intros [H1%N.leb_le H2%N.leb_le]%andb_true_iff.
  apply orb_false_iff. split; apply N.eqb_neq; lia.
Qed.

Lemma fromisoformat_day_digits s dt j c :
  fromisoformat s = Ok dt → (j = 8 ∨ j = 9)%nat → s !! j = Some c → is_digit c = true.
Proof.
  intros (y & m & d & _ & Hdate%parse_date_day & _)%fromisoformat_Ok Hj Hc.
  unfold parse_digits in Hdate. destruct (_ =? _)%nat; [|done].
  apply digits_go_Forall in Hdate.
  apply (Forall_lookup_1 _ _ (j - 8)%nat c Hdate). unfold slice.
  rewrite lookup_take_lt by lia. rewrite lookup_drop.
  rewrite lookup_take_lt by lia. rewrite <- Hc. f_equal. lia.
Qed.

Lemma parse_time_aware t c i :
  parse_isoformat_time t = Some c → find_sign t = Some i → is_Some c.2.
Proof.
  unfold parse_isoformat_time. intros H Hi. rewrite Hi in H.
  destruct (parse_hh_mm_ss_ff (take i t)); simpl in H; [|done].
  destruct (guard _); simpl in H; [|done].
  destruct (parse_hh_mm_ss_ff (drop _ _)) as [[[[th tm] ts] tus]|]; simpl in H; [|done].
  destruct (check_offset _); simpl in H; [|done].
  injection H as <-. simpl. eauto.
Qed.

Lemma fromisoformat_aware s dt :
  fromisoformat s = Ok dt → (11 ≤ length s)%nat → is_Some (find_sign (drop 11 s)) →
  is_Some (tzinfo dt).
Proof.
  intros (y & m & d & c & _ & Htime & ->)%fromisoformat_Ok Hlen [i Hi].
  destruct (Nat.eqb_spec (length s) 10); [lia|]. simpl.
  by eapply parse_time_aware.
Qed.

Lemma astimezone_utc_aware local1 local2 dt :
  is_Some (tzinfo dt) → astimezone_utc local1 dt = astimezone_utc local2 dt.
Proof. unfold astimezone_utc. by intros [off ->]. Qed.

Lemma plus_in_suffix x : PLUS ∈ x ++ py "+00:00".
Proof. apply elem_of_app. right. left. Qed.

(** A timestamp that reaches the minutes, and whose separator is not a
    sign, is normalised to the same instant on every machine: with a
    [Z], with an offset or with neither, the value that is parsed is
    aware. *)
Lemma to_dt_machine_independent local1 local2 s :
  (14 ≤ length s)%nat →
  (∀ c, s !! 10%nat = Some c → is_sign c = false) →
  to_dt local1 s = to_dt local2 s.
Proof.
  intros Hlen Hsep. unfold to_dt.
  set (s' := if endswith s _ then _ else _).
  destruct (fromisoformat s') as [dt|e] eqn:Hdt; [|done]. simpl.
  apply astimezone_utc_aware. apply (fromisoformat_aware s'); [done| |].
  - subst s'. destruct (endswith s _); [|destruct (_ && _)];
      rewrite ?length_app; unfold drop_last; rewrite ?length_take; simpl; lia.
  - subst s'. destruct (endswith s (py "Z")).
    + rewrite drop_app_le by (unfold drop_last; rewrite length_take; lia).
      eapply find_sign_Some; [apply elem_of_app; right; left|done].
    + destruct (_ && _) eqn:Hsign.
      * rewrite drop_app_le by lia.
        eapply find_sign_Some; [apply elem_of_app; right; left|done].
      * apply no_sign_in_last in Hsign as (j & c & Hj & Hc & Hs).
        destruct (decide (11 ≤ j)%nat) as [Hge|Hlt].
        -- eapply find_sign_Some; [|exact Hs].
           apply list_elem_of_lookup. exists (j - 11)%nat.
           rewrite lookup_drop, <- Hc. f_equal. lia.
        -- exfalso. assert (j = 8 ∨ j = 9 ∨ j = 10)%nat as [-> | [-> | ->]] by lia.
           ++ apply (fromisoformat_day_digits _ _ _ _ Hdt) in Hc; [|lia].
              apply digit_not_sign in Hc. congruence.
           ++ apply (fromisoformat_day_digits _ _ _ _ Hdt) in Hc; [|lia].
              apply digit_not_sign in Hc. congruence.
           ++ apply Hsep in Hc. congruence.
Qed.

(** A timestamp with a [Z], one with an offset and one with neither,
    all complete to the minute, agree on every machine. *)
Example to_dt_same_instant local_utcoffset :
  to_dt local_utcoffset (py "2024-01-01T10:00:00Z") = Ok (instant 2024 1 1 10 0 0)
  ∧ to_dt local_utcoffset (py "2024-01-01T11:00:00+01:00") = Ok (instant 2024 1 1 10 0 0)
  ∧ to_dt local_utcoffset (py "2024-01-01T04:30:00.000-05:30") = Ok (instant 2024 1 1 10 0 0)
  ∧ to_dt local_utcoffset (py "2024-01-01T10:00:00") = Ok (instant 2024 1 1 10 0 0)
  ∧ to_dt local_utcoffset (py "2024-01-01 10:00") = Ok (instant 2024 1 1 10 0 0).
Proof. split_and!; vm_compute; reflexivity. Qed.

(** C6.  A timestamp that stops at the hour, or at the day, carries no
    offset, yet [to_dt] does not take it as UTC: the hyphen of its date is
    among its last six characters, no offset is appended, and the naive
    value is read in the machine's local zone.  On a machine at UTC+1,
    ["2024-01-01T10"] becomes 09:00 UTC, while ["2024-01-01T10:00"] and
    ["2024-01-01T10:00:00Z"] become 10:00 UTC. *)
Theorem to_dt_hour_only_is_local_time :
  last_n 6 (py "2024-01-01T10") = py "-01T10"
  ∧ to_dt cet_machine (py "2024-01-01T10") = Ok (instant 2024 1 1 9 0 0)
  ∧ to_dt cet_machine (py "2024-01-01T10:00") = Ok (instant 2024 1 1 10 0 0)
  ∧ to_dt cet_machine (py "2024-01-01T10:00:00Z") = Ok (instant 2024 1 1 10 0 0)
  ∧ to_dt utc_machine (py "2024-01-01T10") = Ok (instant 2024 1 1 10 0 0)
  ∧ to_dt cet_machine (py "2024-01-01") = Ok (instant 2023 12 31 23 0 0)
  ∧ to_dt cet_machine (py "2024-01-01T00:00:00") = Ok (instant 2024 1 1 0 0 0).
Proof. split_and!; vm_compute; reflexivity. Qed.

(** What this does to the order of the rows: on that machine a record
    created at ["2024-01-01T10"] is placed before one created at
    09:30 UTC. *)
Example make_rows_hour_only_order :
  make_rows cet_machine
    [mk_item "2024-01-01T09:30:00Z" "Falken" "Spelle" [];
     mk_item "2024-01-01T10" "Adler" "Beesten" []]
  = Ok [(1, py "Adler aus Beesten – unbestätigt", false);
        (2, py "Falken aus Spelle – unbestätigt", false)].
Proof. vm_compute. reflexivity. Qed.

(** C5.  [make_rows] does not take every sequence of records in the
    order of their normalised UTC creation timestamps.  Of two records,
    one created at ["2024-01-01T09:30:00Z"] and one at ["2024-01-01T10"],
    which has no offset and so stands for 10:00 UTC, the second is the
    later one.  On a machine at UTC+1 the sort key of the second is
    09:00 UTC, and [make_rows] gives it position 1 and the first
    position 2.  On a machine at UTC, and on any machine when the
    timestamp is written with its minutes, ["2024-01-01T10:00"], the
    rows come in the order of the timestamps. *)
Theorem make_rows_misorders_hour_only :
  let early := mk_item "2024-01-01T09:30:00Z" "Falken" "Spelle" [] in
  let late := mk_item "2024-01-01T10" "Adler" "Beesten" [] in
  let late_minutes := mk_item "2024-01-01T10:00" "Adler" "Beesten" [] in
  instant 2024 1 1 9 30 0 < instant 2024 1 1 10 0 0
  ∧ sort_key cet_machine early = Ok (instant 2024 1 1 9 30 0)
  ∧ sort_key cet_machine late = Ok (instant 2024 1 1 9 0 0)
  ∧ sort_key cet_machine late_minutes = Ok (instant 2024 1 1 10 0 0)
  ∧ make_rows cet_machine [early; late]
    = Ok [(1, py "Adler aus Beesten – unbestätigt", false);
          (2, py "Falken aus Spelle – unbestätigt", false)]
  ∧ make_rows utc_machine [early; late]
    = Ok [(1, py "Falken aus Spelle – unbestätigt", false);
          (2, py "Adler aus Beesten – unbestätigt", false)]
  ∧ make_rows cet_machine [early; late_minutes]
    = Ok [(1, py "Falken aus Spelle – unbestätigt", false);
          (2, py "Adler aus Beesten – unbestätigt", false)].
Proof. intros early late late_minutes. split_and!; vm_compute; reflexivity. Qed.

(* ================================================================== *)
(** ** Malformed records *)
(* ================================================================== *)

Lemma make_rows_malformed local_utcoffset (items : list item) (it : item) :
  it ∈ items → malformed local_utcoffset it →
  ∃ e, make_rows local_utcoffset items = Raise e ∧ is_Exception e = true.
Proof.
  intros Hin [e He].
  destruct (mapM_Raise _ _ _ _ Hin He) as (it' & e' & _ & He' & Hkeys).
  exists e'. split; [|by eapply sort_key_raise_Exception].
  unfold make_rows, sorted. by rewrite Hkeys.
Qed.

(** C9, as stated, fails.  A payload with a good record and one that
    has no [creation_date]: the good record is not processed, the whole
    iteration fails and nothing is read from or written to the sheet,
    while the good record alone is written. *)
Lemma malformed_record_aborts_cycle :
  make_rows utc_machine [adler] = Ok [adler_row]
  ∧ make_rows utc_machine [adler; no_date] = Raise KeyError
  ∧ tick utc_machine plain_digest int_digits 72 (world_with [adler; no_date]) None
    = ([EvFetch; EvPrint; EvSleep], Running None)
  ∧ (tick utc_machine plain_digest int_digits 72 (world_with [adler]) None).1
    = [EvFetch; EvSheetRead; EvBatchWrite [(2, Cells 1 (py "Adler aus Beesten – bestätigt"))];
       EvColour [(2, Some true)]; EvPrint; EvSleep].
Proof. split_and!; vm_compute; reflexivity. Qed.

(** C9 (amended).  A record without [creation_date], or with one that
    [to_dt] rejects, makes [make_rows] raise an [Exception]: the
    iteration ends in the [except] branch after the fetch, no record of
    the payload is processed, the sheet is neither read nor written,
    [last_fp] keeps its value, and the loop goes on. *)
Theorem malformed_record_fails_tick
    local_utcoffset sha256_hexdigest int reserved w last_fp data (it : item) :
  w_fetch w = Ok data → w_snapshot w = Ok tt →
  it ∈ active data →
  (it !! py "creation_date" = None
   ∨ ∃ s e, it !! py "creation_date" = Some (PyStr s) ∧ to_dt local_utcoffset s = Raise e) →
  (∃ e, make_rows local_utcoffset (active data) = Raise e ∧ is_Exception e = true)
  ∧ tick local_utcoffset sha256_hexdigest int reserved w last_fp
    = ([EvFetch; EvPrint; EvSleep], Running last_fp)
  ∧ ∀ ws, run local_utcoffset sha256_hexdigest int reserved (w :: ws) last_fp
          = ([EvFetch; EvPrint; EvSleep]
               ++ (run local_utcoffset sha256_hexdigest int reserved ws last_fp).1,
             (run local_utcoffset sha256_hexdigest int reserved ws last_fp).2).
Proof.
  intros Hfetch Hsnap Hin Hbad.
  assert (malformed local_utcoffset it) as Hmal.
  { unfold malformed, sort_key, getitem.
    destruct Hbad as [->|(s & e & -> & He)]; simpl; eauto. }
  destruct (make_rows_malformed _ _ _ Hin Hmal) as (e & He & Hexc).
  assert (tick local_utcoffset sha256_hexdigest int reserved w last_fp
          = ([EvFetch; EvPrint; EvSleep], Running last_fp)) as Htick.
  { assert (raised_in_build local_utcoffset w e) as Hb.
    { exists (active data). split; [|done]. apply fetch_persons_Ok. eauto. }
    rewrite (tick_of_raise _ _ _ _ _ _ e).
    - by rewrite (attempt_build_raise _ _ _ _ _ _ _ Hb).
    - by rewrite (attempt_build_raise _ _ _ _ _ _ _ Hb).
    - done. }
  split_and!; [eauto|done|].
  intros ws. rewrite (run_cons_running _ _ _ _ _ _ _ last_fp); by rewrite Htick.
Qed.

Lemma malformed_record_fails_tick_witness :
  tick utc_machine plain_digest int_digits 72 (world_with [adler; no_date]) None
  = ([EvFetch; EvPrint; EvSleep], Running None).
Proof.
  eapply (malformed_record_fails_tick utc_machine plain_digest int_digits 72
            (world_with [adler; no_date]) None [adler; no_date] no_date).
  - reflexivity.
  - reflexivity.
  - vm_compute. right. left.
  - left. vm_compute. reflexivity.
Defined.

(* ================================================================== *)
(** * Further properties of the code *)
(* ================================================================== *)

(* ================================================================== *)
(** ** Layout of the sheet *)
(* ================================================================== *)

(** X1.  Whatever the reserved capacity is, the position mapper keeps the
    order of the positions, never yields a row of the separator block,
    and puts the positions from 1 on below the header row. *)
Theorem row_for_position_layout reserved :
  (∀ p q, p < q → row_for_position reserved p < row_for_position reserved q)
  ∧ (∀ pos, ¬ separator_row reserved (row_for_position reserved pos))
  ∧ (∀ pos, 1 <= pos → 2 <= row_for_position reserved pos)
  ∧ (∀ pos, pos <= reserved ↔ row_for_position reserved pos <= reserved + 1).
Proof.
  unfold row_for_position, separator_row. split_and!.
  - intros p q Hpq. destruct (Z.leb_spec p reserved), (Z.leb_spec q reserved); lia.
  - intros pos. destruct (Z.leb_spec pos reserved); lia.
  - intros pos Hpos. destruct (Z.leb_spec pos reserved); lia.
  - intros pos. destruct (Z.leb_spec pos reserved); lia.
Qed.

Lemma row_for_position_layout_witness :
  row_for_position 10 10 < row_for_position 10 11
  ∧ 2 <= row_for_position 10 1.
Proof.
  destruct (row_for_position_layout 10) as (H1 & _ & H3 & _).
  split; [apply H1 | apply H3]; lia.
Defined.

(* ================================================================== *)
(** ** Dicts: lookup after a store *)
(* ================================================================== *)

Lemma dget_dset_eq {V} (d : dict V) k v : dget (dset d k v) k = Some v.
Proof.
  induction d as [|[k' v'] d IH]; simpl.
  - by rewrite eqb_refl.
  - destruct (eqb k' k) eqn:E; simpl; by rewrite E.
Qed.

Lemma dget_dset_ne {V} (d : dict V) k k' v :
  k ≠ k' → dget (dset d k v) k' = dget d k'.
Proof.
  intros Hne. induction d as [|[k0 v0] d IH]; simpl.
  - by apply eqb_neq in Hne as ->.
  - destruct (eqb k0 k) eqn:E; simpl.
    + apply eqb_eq in E as ->. by apply eqb_neq in Hne as ->.
    + by rewrite IH.
Qed.

Lemma elem_dset_sub {V} (d : dict V) k v k' v' :
  (k', v') ∈ dset d k v → (k' = k ∧ v' = v) ∨ (k', v') ∈ d.
Proof.
  induction d as [|[k0 v0] d IH]; simpl.
  - intros [= -> ->]%list_elem_of_singleton. by left.
  - destruct (eqb k0 k) eqn:E.
    + apply eqb_eq in E as ->.
      intros [[= -> ->]|H]%elem_of_cons; [by left|]. right. by right.
    + intros [[= -> ->]|H]%elem_of_cons; [right; by left|].
      destruct (IH H) as [?|?]; [by left|]. right. by right.
Qed.

(* ================================================================== *)
(** ** Reading the sheet *)
(* ================================================================== *)

Lemma enumerate_app {A} (l1 l2 : list A) start :
  enumerate start (l1 ++ l2)
  = enumerate start l1 ++ enumerate (start + Z.of_nat (length l1)) l2.
Proof.
  induction l1 as [|x l1 IH] in start |- *; simpl.
  - by rewrite Z.add_0_r.
  - rewrite IH. do 3 f_equal. lia.
Qed.

Lemma split_go_no_sep sep s cur :
  contains s sep = false → split_go sep s 0 cur = [rev cur ++ s].
Proof.
  induction s as [|c s IH] in cur |- *; intros H.
  - simpl. by rewrite app_nil_r.
  - cbn [contains] in H. apply orb_false_iff in H as [H1 H2].
    cbn [split_go]. rewrite H1, IH by done.
    simpl. by rewrite <- app_assoc.
Qed.

(** Without the separator in it, the first piece is the whole string:
    the two branches of [team = ...] in [_read_sheet] agree. *)
Lemma split_first_no_sep s sep :
  contains s sep = false → split_first s sep = s.
Proof.
  intros H. unfold split_first, split. by rewrite split_go_no_sep.
Qed.

Section Reader.

Variable int : pystr → option Z.
Variable reserved : Z.

Lemma read_row_readable out idx row :
  readable reserved idx row →
  read_row int reserved out (idx, row)
  = dset out (team_of (cell_of row)) (entry_of int idx row).
Proof.
  intros (Hsep & Hne & Hlabel). unfold read_row, separator_row in *.
  replace ((idx =? reserved + 2) || (idx =? reserved + 3) || (idx =? reserved + 4))
    with false by (symmetry; repeat (apply orb_false_iff; split); lia).
  destruct row as [|c0 rest]; [done|].
  cbv zeta.
  set (cell := match rest with c1 :: _ => c1 | [] => [] end).
  assert (cell_of (c0 :: rest) = cell) as Hcell by by destruct rest.
  rewrite Hcell in Hlabel. apply eqb_neq in Hlabel as ->.
  unfold entry_of, team_of. rewrite Hcell. cbn [hd].
  destruct (contains _ _) eqn:E; [done|].
  by rewrite split_first_no_sep.
Qed.

Lemma read_row_unreadable out idx row :
  ¬ readable reserved idx row → read_row int reserved out (idx, row) = out.
Proof.
  intros Hn. unfold read_row.
  destruct (_ || _) eqn:Es; [done|].
  destruct row as [|c0 rest]; [done|].
  destruct (eqb _ _) eqn:El; [done|].
  exfalso. apply Hn. split_and!.
  - unfold separator_row.
    repeat (apply orb_false_iff in Es as [Es ?]). lia.
  - done.
  - apply eqb_neq in El. by destruct rest.
Qed.

Lemma readable_dec idx row :
  readable reserved idx row ∨ ¬ readable reserved idx row.
Proof.
  unfold readable, separator_row.
  destruct (decide (reserved + 2 <= idx <= reserved + 4)); [right; tauto|].
  destruct (decide (row = [])); [right; tauto|].
  destruct (decide (strip (cell_of row) = py "Warteliste")); [right; tauto|].
  by left.
Qed.

Lemma read_sheet_snoc values row :
  _read_sheet int reserved (values ++ [row])
  = read_row int reserved (_read_sheet int reserved values)
      (Z.of_nat (length values) + 2, row).
Proof.
  unfold _read_sheet. rewrite enumerate_app, foldl_app. cbn [enumerate foldl].
  do 2 f_equal. lia.
Qed.

Lemma read_sheet_entries values team m :
  (team, m) ∈ _read_sheet int reserved values →
  ∃ i row, values !! i = Some row
    ∧ readable reserved (Z.of_nat i + 2) row
    ∧ team = team_of (cell_of row)
    ∧ m = entry_of int (Z.of_nat i + 2) row.
Proof.
  revert team m.
  induction values as [|row values IH] using rev_ind; intros team m Hin.
  - by apply elem_of_nil in Hin.
  - rewrite read_sheet_snoc in Hin.
    destruct (readable_dec (Z.of_nat (length values) + 2) row) as [Hr|Hr].
    + rewrite read_row_readable in Hin by done.
      apply elem_dset_sub in Hin as [[-> ->]|Hin].
      * exists (length values), row. split_and!; try done.
        by rewrite lookup_app_r, Nat.sub_diag.
      * destruct (IH _ _ Hin) as (i & row' & Hi & ?).
        exists i, row'. split; [|done]. by apply lookup_app_l_Some.
    + rewrite read_row_unreadable in Hin by done.
      destruct (IH _ _ Hin) as (i & row' & Hi & ?).
      exists i, row'. split; [|done]. by apply lookup_app_l_Some.
Qed.

(** X2.  Every entry of the dict that [_read_sheet] returns comes from
    a row of the sheet that is neither in the separator block, nor
    empty, nor the waiting list label: it is stored under the text up
    to the first [" aus "], with the number of that row, its text, the
    paid state the text shows, and the integer of column A (0 when
    there is none).  No two entries share a key or a row. *)
Theorem read_sheet_sound values :
  let current := _read_sheet int reserved values in
  store_state current
  ∧ ∀ team m, (team, m) ∈ current →
      ∃ i row, values !! i = Some row
        ∧ readable reserved (Z.of_nat i + 2) row
        ∧ team = team_of (cell_of row)
        ∧ m = entry_of int (Z.of_nat i + 2) row.
Proof.
  split; [apply read_sheet_store_state | apply read_sheet_entries].
Qed.

(** X3.  A readable row is found again under its team name, unless a
    readable row further down has the same team name: the lookup gives
    the entry of the last such row. *)
Theorem read_sheet_last_wins values i row :
  values !! i = Some row →
  readable reserved (Z.of_nat i + 2) row →
  ∃ j row', (i <= j)%nat
    ∧ values !! j = Some row'
    ∧ readable reserved (Z.of_nat j + 2) row'
    ∧ team_of (cell_of row') = team_of (cell_of row)
    ∧ dget (_read_sheet int reserved values) (team_of (cell_of row))
      = Some (entry_of int (Z.of_nat j + 2) row')
    ∧ ∀ k row'', (j < k)%nat → values !! k = Some row'' →
        readable reserved (Z.of_nat k + 2) row'' →
        team_of (cell_of row'') ≠ team_of (cell_of row).
Proof.
  induction values as [|last values IH] using rev_ind; [done|].
  intros Hi Hr. rewrite read_sheet_snoc.
  set (n := length values).
  destruct (readable_dec (Z.of_nat n + 2) last) as [Hl|Hl].
  - rewrite read_row_readable by done.
    destruct (decide (team_of (cell_of last) = team_of (cell_of row))) as [Heq|Hne].
    + exists n, last. split_and!; try done.
      * apply lookup_lt_Some in Hi. rewrite length_app in Hi. simpl in Hi. lia.
      * by rewrite lookup_app_r, Nat.sub_diag.
      * by rewrite Heq, dget_dset_eq.
      * intros k row'' Hk Hlk. apply lookup_lt_Some in Hlk.
        rewrite length_app in Hlk. simpl in Hlk. lia.
    + assert (i ≠ n) as Hin.
      { intros ->. rewrite lookup_app_r, Nat.sub_diag in Hi by done.
        by injection Hi as ->. }
      assert (values !! i = Some row) as Hi'.
      { apply lookup_lt_Some in Hi as Hlt. rewrite length_app in Hlt. simpl in Hlt.
        rewrite lookup_app_l in Hi by lia. done. }
      destruct (IH Hi' Hr) as (j & row' & Hij & Hj & Hrj & Ht & Hg & Hlast).
      exists j, row'. split_and!; try done.
      * by apply lookup_app_l_Some.
      * by rewrite dget_dset_ne.
      * intros k row'' Hk Hlk Hrk.
        destruct (decide (k = n)) as [->|Hkn].
        -- rewrite lookup_app_r, Nat.sub_diag in Hlk by done.
           by injection Hlk as <-.
        -- apply lookup_lt_Some in Hlk as Hlt. rewrite length_app in Hlt. simpl in Hlt.
           rewrite lookup_app_l in Hlk by lia. eauto.
  - rewrite read_row_unreadable by done.
    assert (i ≠ n) as Hin.
    { intros ->. rewrite lookup_app_r, Nat.sub_diag in Hi by done.
      by injection Hi as ->. }
    assert (values !! i = Some row) as Hi'.
    { apply lookup_lt_Some in Hi as Hlt. rewrite length_app in Hlt. simpl in Hlt.
      rewrite lookup_app_l in Hi by lia. done. }
    destruct (IH Hi' Hr) as (j & row' & Hij & Hj & Hrj & Ht & Hg & Hlast).
    exists j, row'. split_and!; try done.
    + by apply lookup_app_l_Some.
    + intros k row'' Hk Hlk Hrk.
      destruct (decide (k = n)) as [->|Hkn].
      * rewrite lookup_app_r, Nat.sub_diag in Hlk by done.
        by injection Hlk as <-.
      * apply lookup_lt_Some in Hlk as Hlt. rewrite length_app in Hlt. simpl in Hlt.
        rewrite lookup_app_l in Hlk by lia. eauto.
Qed.

(** X4.  A team name that no readable row carries is not a key of the
    dict: the rows of the separator block, the empty rows and the
    waiting list label leave no entry. *)
Theorem read_sheet_missing values team :
  (∀ i row, values !! i = Some row →
     readable reserved (Z.of_nat i + 2) row → team_of (cell_of row) ≠ team) →
  dget (_read_sheet int reserved values) team = None.
Proof.
  intros Hno. destruct (dget _ team) as [m|] eqn:E; [|done].
  apply dget_Some_elem in E.
  destruct (read_sheet_entries _ _ _ E) as (i & row & Hi & Hr & -> & _).
  by destruct (Hno i row Hi Hr).
Qed.

End Reader.

Lemma read_sheet_sound_witness :
  ∃ i row, sheet_adler_zebra !! i = Some row
    ∧ readable 72 (Z.of_nat i + 2) row
    ∧ py "Zebra" = team_of (cell_of row)
    ∧ mk_meta 3 2 false (py "Zebra aus Lingen – unbestätigt")
      = entry_of int_digits (Z.of_nat i + 2) row.
Proof.
  destruct (read_sheet_sound int_digits 72 sheet_adler_zebra) as [_ H].
  apply H. vm_compute. right. left.
Defined.

Lemma read_sheet_last_wins_witness :
  ∃ j row', (0 <= j)%nat
    ∧ sheet_adler_twice !! j = Some row'
    ∧ readable 72 (Z.of_nat j + 2) row'
    ∧ team_of (cell_of row') = py "Adler"
    ∧ dget (_read_sheet int_digits 72 sheet_adler_twice) (py "Adler")
      = Some (entry_of int_digits (Z.of_nat j + 2) row')
    ∧ ∀ k row'', (j < k)%nat → sheet_adler_twice !! k = Some row'' →
        readable 72 (Z.of_nat k + 2) row'' →
        team_of (cell_of row'') ≠ py "Adler".
Proof.
  apply (read_sheet_last_wins int_digits 72 sheet_adler_twice 0
           [py "1"; py "Adler aus Beesten – bestätigt"]).
  - reflexivity.
  - split_and!; [unfold separator_row; simpl; lia | done | by vm_compute].
Defined.

Lemma read_sheet_missing_witness :
  dget (_read_sheet int_digits 72 sheet_adler_zebra) (py "Falken") = None.
Proof.
  apply read_sheet_missing.
  intros [|[|i]] row Hi _; simpl in Hi; [| |done];
    injection Hi as <-; by vm_compute.
Defined.

(* ================================================================== *)
(** ** The rows that [make_rows] builds *)
(* ================================================================== *)

Lemma length_enumerate {A} (l : list A) start : length (enumerate start l) = length l.
Proof. induction l as [|x l IH] in start |- *; simpl; [done|]. by rewrite IH. Qed.

Lemma enumerate_lookup {A} (l : list A) start i p :
  enumerate start l !! i = Some p →
  p.1 = start + Z.of_nat i ∧ l !! i = Some p.2.
Proof.
  induction l as [|x l IH] in start, i |- *; [done|].
  destruct i as [|i]; simpl.
  - intros [= <-]. simpl. split; [lia|done].
  - intros [-> ?]%IH. split; [lia|done].
Qed.

Lemma sorted_Ok_perm {A} (keyf : A → outcome Z) (items ordered : list A) :
  sorted keyf items = Ok ordered → ordered ≡ₚ items.
Proof.
  unfold sorted. intros (ks & Hks & [= <-])%bind_Ok.
  apply mapM_Ok, Forall2_length in Hks.
  rewrite sort_by_key_perm. by rewrite snd_zip by lia.
Qed.

Lemma make_rows_lookup local_utcoffset items rows i r :
  make_rows local_utcoffset items = Ok rows → rows !! i = Some r →
  row_pos r = Z.of_nat i + 1.
Proof.
  unfold make_rows. intros (ordered & _ & Hrows)%bind_Ok Hi.
  apply mapM_Ok in Hrows.
  destruct (Forall2_lookup_r _ _ _ _ _ Hrows Hi) as ([pos it] & Hp & Hr).
  apply enumerate_lookup in Hp as [Hpos _]. simpl in Hpos.
  apply make_row_Ok in Hr as (team & village & paid & ->).
  unfold row_pos. simpl. lia.
Qed.

(** X5.  Whenever [make_rows] returns, it returns one row for every
    record of the payload, and the rows carry the positions 1, 2, 3, ...
    in order: no position is left out or used twice. *)
Theorem make_rows_positions local_utcoffset items rows :
  make_rows local_utcoffset items = Ok rows →
  length rows = length items
  ∧ row_pos <$> rows = seqZ 1 (Z.of_nat (length items)).
Proof.
  intros Hrows.
  assert (length rows = length items) as Hlen.
  { unfold make_rows in Hrows. apply bind_Ok in Hrows as (ordered & Hs & Hrows).
    apply mapM_Ok, Forall2_length in Hrows. rewrite length_enumerate in Hrows.
    apply sorted_Ok_perm, Permutation_length in Hs. lia. }
  split; [done|].
  apply list_eq. intros i. rewrite list_lookup_fmap.
  destruct (rows !! i) as [r|] eqn:Hi; simpl.
  - rewrite (make_rows_lookup _ _ _ _ _ Hrows Hi).
    apply lookup_lt_Some in Hi. symmetry.
    rewrite lookup_seqZ. split; lia.
  - apply lookup_ge_None in Hi. symmetry.
    apply lookup_seqZ_ge. lia.
Qed.

Lemma make_rows_positions_witness :
  ∃ rows, make_rows utc_machine [falken; adler] = Ok rows
    ∧ length rows = 2%nat ∧ row_pos <$> rows = [1; 2].
Proof.
  exists scenario_rows.
  assert (make_rows utc_machine [falken; adler] = Ok scenario_rows) as H
    by (vm_compute; reflexivity).
  split; [exact H|]. exact (make_rows_positions utc_machine _ _ H).
Defined.

(* ================================================================== *)
(** ** Where the instructions of a tick go *)
(* ================================================================== *)

(** X6.  The instructions computed from the rows of [make_rows] and the
    dict of [_read_sheet] never touch the header row or the separator
    block: every Update and every ColorInstruction names a row from 2
    on that is outside the three rows after the reserved block. *)
Theorem reconcile_targets local_utcoffset int reserved items rows values :
  make_rows local_utcoffset items = Ok rows →
  let out := reconcile reserved (_read_sheet int reserved values) rows in
  (∀ u, u ∈ out.1 → 2 <= u.1 ∧ ¬ separator_row reserved u.1)
  ∧ (∀ f, f ∈ out.2 → 2 <= f.1 ∧ ¬ separator_row reserved f.1).
Proof.
  intros Hrows out. subst out. rewrite reconcile_eq. cbn [fst snd].
  assert (∀ r, r ∈ rows →
            2 <= row_for_position reserved (row_pos r)
            ∧ ¬ separator_row reserved (row_for_position reserved (row_pos r))) as Hup.
  { intros r (i & Hi)%list_elem_of_lookup.
    split; [|apply row_for_position_not_separator].
    rewrite (make_rows_lookup _ _ _ _ _ Hrows Hi).
    unfold row_for_position. destruct (_ <=? _); lia. }
  assert (∀ kv, kv ∈ gone (_read_sheet int reserved values) rows →
            2 <= meta_row kv.2 ∧ ¬ separator_row reserved (meta_row kv.2)) as Hgone.
  { intros [team m] [_ Hin]%list_elem_of_filter.
    destruct (read_sheet_entries _ _ _ _ _ Hin) as (i & row & _ & (Hsep & _) & _ & ->).
    simpl. split; [lia|done]. }
  split.
  - intros u [Hu|Hu]%elem_of_app.
    + apply elem_of_upserts in Hu as (r & Hr & Hu).
      apply upsert_of_elem in Hu as [-> _]. by apply Hup.
    + apply list_elem_of_fmap in Hu as (kv & -> & Hkv). by apply Hgone.
  - intros f [Hf|Hf]%elem_of_app.
    + apply list_elem_of_fmap in Hf as (r & -> & Hr). by apply Hup.
    + apply list_elem_of_fmap in Hf as (kv & -> & Hkv). by apply Hgone.
Qed.

Lemma reconcile_targets_witness :
  let out := reconcile 72 (_read_sheet int_digits 72 sheet_adler_zebra) scenario_rows in
  (∀ u, u ∈ out.1 → 2 <= u.1 ∧ ¬ separator_row 72 u.1)
  ∧ (∀ f, f ∈ out.2 → 2 <= f.1 ∧ ¬ separator_row 72 f.1).
Proof.
  apply (reconcile_targets utc_machine int_digits 72 [falken; adler]).
  vm_compute. reflexivity.
Defined.

(* ================================================================== *)
(** ** The order of the payload *)
(* ================================================================== *)

Lemma filter_unique_perm {A} (f : A → Z) (t : Z) (l1 l2 : list A) :
  l1 ≡ₚ l2 → NoDup (f <$> l1) →
  filter (λ a, f a = t) l1 = filter (λ a, f a = t) l2.
Proof.
  intros Hp Hnd.
  assert (∀ l, NoDup (f <$> l) → (length (filter (λ a, f a = t) l) <= 1)%nat) as Hlen.
  { induction l as [|a l IH]; [simpl; lia|].
    rewrite fmap_cons. intros [Hna Hnd']%NoDup_cons.
    rewrite filter_cons. destruct (decide (f a = t)) as [Ht|Ht]; [|by apply IH].
    destruct (filter (λ a, f a = t) l) as [|b l'] eqn:E; [simpl; lia|].
    assert (b ∈ filter (λ a, f a = t) l) as [Hfb Hb]%list_elem_of_filter
      by (rewrite E; left).
    destruct Hna. apply list_elem_of_fmap. exists b. split; [congruence | done]. }
  assert (filter (λ a, f a = t) l1 ≡ₚ filter (λ a, f a = t) l2) as Hpf
    by by rewrite Hp.
  pose proof (Hlen l1 Hnd) as H1.
  assert (NoDup (f <$> l2)) as Hnd2 by by rewrite <- Hp.
  pose proof (Hlen l2 Hnd2) as H2.
  destruct (filter _ l1) as [|a [|??]], (filter _ l2) as [|b [|??]];
    simpl in *; try lia.
  - done.
  - by apply Permutation_nil_cons in Hpf.
  - by apply Permutation_sym, Permutation_nil_cons in Hpf.
  - by apply Permutation_singleton_l in Hpf.
Qed.

(** X7.  When no two records are created at the same instant, the
    order in which the API lists the records does not matter:
    [make_rows] builds the same rows from every rearrangement of the
    payload. *)
Theorem make_rows_order_irrelevant local_utcoffset (items items' : list item) :
  Forall (well_formed local_utcoffset) items →
  NoDup (created local_utcoffset <$> items) →
  items' ≡ₚ items →
  make_rows local_utcoffset items' = make_rows local_utcoffset items.
Proof.
  intros Hwf Hnd Hp.
  assert (Forall (well_formed local_utcoffset) items') as Hwf' by by rewrite Hp.
  unfold make_rows. rewrite !sorted_well_formed by done.
  change ((sort_by_key (tag local_utcoffset <$> ?l)).*2) with (ordered_of local_utcoffset l).
  f_equal. f_equal.
  apply ordered_of_unique; [apply ordered_of_sorted|].
  intros t. rewrite ordered_of_stable.
  apply filter_unique_perm; [done|]. by rewrite Hp.
Qed.

Lemma make_rows_order_irrelevant_witness :
  make_rows utc_machine [adler; falken] = make_rows utc_machine [falken; adler].
Proof.
  apply make_rows_order_irrelevant.
  - apply Forall_cons_2; [apply falken_well_formed|].
    apply Forall_cons_2; [apply adler_well_formed | apply Forall_nil_2].
  - vm_compute. apply NoDup_cons. split.
    + intros [[=]|H]%elem_of_cons. by apply elem_of_nil in H.
    + apply NoDup_singleton.
  - apply perm_swap.
Defined.

(* ================================================================== *)
(** ** More on the sync loop *)
(* ================================================================== *)

Section SyncLoopMore.

Variable local_utcoffset : Z → Z.
Variable sha256_hexdigest : list N → pystr.
Variable int : pystr → option Z.
Variable reserved : Z.

Local Abbreviation tick := (tick local_utcoffset sha256_hexdigest int reserved).
Local Abbreviation attempt := (attempt local_utcoffset sha256_hexdigest int reserved).
Local Abbreviation loop := (run local_utcoffset sha256_hexdigest int reserved).
Local Abbreviation new_fp := (new_fingerprint local_utcoffset sha256_hexdigest).

(** X8.  A record with a cancellation date has no effect on an
    iteration: the loop does the same with and without it in the
    payload. *)
Theorem cancelled_ignored w data1 c data2 last_fp :
  cancelled c →
  tick (with_payload w (data1 ++ c :: data2)) last_fp
  = tick (with_payload w (data1 ++ data2)) last_fp.
Proof.
  intros Hc. unfold cancelled in Hc.
  unfold tick, attempt, fetch_persons. cbn [with_payload w_fetch w_snapshot].
  unfold call. cbn [mbind io_bind].
  rewrite !filter_app, filter_cons_False by (by rewrite Hc).
  reflexivity.
Qed.

(** The rows of an iteration are those of the payload it fetched. *)
Lemma new_fingerprint_rows w items rows fp :
  (fetch_persons w).2 = Ok items → new_fp w rows fp →
  make_rows local_utcoffset items = Ok rows.
Proof. intros Hf (items' & Hf' & Hrows & _). congruence. Qed.

(** X9.  After an iteration that has set the loop variable, an
    iteration whose payload yields the same rows fetches, sleeps and
    does nothing else: the sheet is neither read nor written. *)
Theorem unchanged_rows_skip w w' last_fp fp items items' :
  (tick w last_fp).2 = Running (Some fp) →
  Some fp ≠ last_fp →
  (fetch_persons w).2 = Ok items →
  (fetch_persons w').2 = Ok items' →
  make_rows local_utcoffset items' = make_rows local_utcoffset items →
  tick w' (Some fp) = ([EvFetch; EvSleep], Running (Some fp)).
Proof.
  intros Hrun Hne Hf Hf' Hsame.
  destruct (tick_changed _ _ _ _ _ _ _ Hrun Hne)
    as (rows & fp0 & out & Hnew & _ & _ & [= ->]).
  assert (new_fp w' rows fp0) as Hnew'.
  { exists items'. split_and!; [done| |by destruct Hnew as (? & _ & _ & ?)].
    rewrite Hsame. by eapply new_fingerprint_rows. }
  unfold tick. by rewrite (attempt_skip _ _ _ _ _ _ _ Hnew').
Qed.

Lemma io_bind_log {A B} (f : A → io B) (m : io A) : ∃ l, (m ≫= f).1 = m.1 ++ l.
Proof.
  destruct m as [log [a|e]]; unfold mbind, io_bind.
  - destruct (f a) as [l o]. by exists l.
  - exists []. simpl. by rewrite app_nil_r.
Qed.

Lemma tick_log_attempt w last_fp : ∃ l, (tick w last_fp).1 = (attempt w last_fp).1 ++ l.
Proof.
  unfold tick. destruct (attempt w last_fp) as [log [[|fp]|e]]; cbn [fst].
  - exists []. by rewrite app_nil_r.
  - by eexists.
  - destruct (is_Exception e); [by eexists|]. exists []. simpl. by rewrite app_nil_r.
Qed.

(** Changed rows lead to a read of the sheet. *)
Lemma changed_rows_read w last_fp rows fp :
  new_fp w rows fp → Some fp ≠ last_fp →
  ∃ log, (tick w last_fp).1 = EvFetch :: EvSheetRead :: log.
Proof.
  intros Hnew Hne.
  destruct (tick_log_attempt w last_fp) as (l1 & ->).
  rewrite (attempt_new_fingerprint _ _ _ _ _ _ _ _ Hnew). unfold sync_if_changed.
  rewrite bool_decide_eq_false_2 by done. cbn [fst].
  destruct (io_bind_log
              (λ current, let '(updates, formats) := reconcile reserved current rows in
                          _ ← apply_changes w updates formats;
                          _ ← call EvPrint (Ok tt);
                          mret (Synced fp))
              (get_current int reserved w)) as (l2 & ->).
  unfold get_current.
  destruct (io_bind_log (λ values, mret (_read_sheet int reserved values))
              (call EvSheetRead (w_values w))) as (l3 & ->).
  simpl. by eexists.
Qed.

(** X10.  A failed read or write of the sheet is tried again: the
    loop variable is left as it was, so that the next iteration, given
    the same rows, reads the sheet again instead of skipping. *)
Theorem failed_sync_retried w w' last_fp e rows fp :
  is_Exception e = true →
  raised_in_read local_utcoffset sha256_hexdigest w last_fp e
  ∨ raised_in_apply local_utcoffset sha256_hexdigest int reserved w last_fp e →
  new_fp w rows fp → new_fp w' rows fp →
  ∃ log', loop [w; w'] last_fp
          = ((tick w last_fp).1 ++ EvFetch :: EvSheetRead :: log' ,
             (tick w' last_fp).2).
Proof.
  intros He Hraised Hnew Hnew'.
  assert (Some fp ≠ last_fp) as Hne.
  { destruct Hraised as [(rows0 & fp0 & Hnew0 & Hne & _)
                        |(rows0 & fp0 & out & Hnew0 & Hne & _)];
      destruct Hnew as (items & Hf & Hr & Hfp), Hnew0 as (items0 & Hf0 & Hr0 & Hfp0);
      congruence. }
  assert ((attempt w last_fp).2 = Raise e) as Hatt by (apply raised_attempt; auto).
  assert ((tick w last_fp).2 = Running last_fp) as Hst
    by by rewrite tick_state, Hatt, He.
  destruct (changed_rows_read w' last_fp rows fp Hnew' Hne) as (log' & Hlog).
  exists log'. rewrite (run_cons_running _ _ _ _ _ _ _ _ Hst).
  cbn [run]. destruct (tick w' last_fp) as [l [fp'|e']]; simpl in *; subst l;
    by rewrite ?app_nil_r.
Qed.

(** X11.  Whatever happens in the iterations, the loop variable is
    either still the one the loop started with or the fingerprint of
    rows that some iteration has read the sheet for and applied
    without an error; and the loop is only left by something that is
    not an [Exception]. *)
Theorem loop_invariant ws fp0 :
  (∀ fp1, (loop ws fp0).2 = Running fp1 →
     fp1 = fp0
     ∨ ∃ w rows fp out,
         w ∈ ws ∧ fp1 = Some fp
         ∧ new_fp w rows fp
         ∧ instructions int reserved w rows out
         ∧ (apply_changes w out.1 out.2).2 = Ok tt)
  ∧ (∀ e, (loop ws fp0).2 = Stopped e → is_Exception e = false).
Proof.
  induction ws as [|w ws IH] in fp0 |- *.
  - split; [intros fp1 [= <-]; by left | done].
  - destruct (tick w fp0).2 as [fp'|e'] eqn:Hst.
    + rewrite (run_cons_running _ _ _ _ _ _ _ _ Hst). cbn [snd].
      destruct (IH fp') as [IH1 IH2]. split; [|done].
      intros fp1 Hrun. destruct (IH1 fp1 Hrun) as [->|(w0 & rows & fp & out & Hin & ?)].
      * destruct (decide (fp' = fp0)) as [->|Hne]; [by left|].
        destruct (tick_changed _ _ _ _ _ _ _ Hst Hne) as (rows & fp & out & ? & ? & ? & ->).
        right. exists w, rows, fp, out. split_and!; try done. left.
      * right. exists w0, rows, fp, out. split; [by right | done].
    + assert (loop (w :: ws) fp0 = ((tick w fp0).1, Stopped e')) as ->.
      { cbn [run]. destruct (tick w fp0) as [log st]. simpl in Hst. by subst st. }
      split; [done|]. intros e [= <-].
      rewrite tick_state in Hst.
      destruct (attempt w fp0).2 as [[|fp]|e]; [done..|].
      destruct (is_Exception e) eqn:E; congruence.
Qed.



End SyncLoopMore.

Lemma cancelled_ignored_witness :
  tick utc_machine plain_digest int_digits 72
    (with_payload (world_with []) ([adler] ++ zebra_cancelled :: [falken])) None
  = tick utc_machine plain_digest int_digits 72
      (with_payload (world_with []) ([adler] ++ [falken])) None.
Proof.
  apply cancelled_ignored. vm_compute. reflexivity.
Defined.

Lemma unchanged_rows_skip_witness :
  tick utc_machine plain_digest int_digits 72 (world_with [adler; zebra_cancelled])
    (Some adler_fp)
  = ([EvFetch; EvSleep], Running (Some adler_fp)).
Proof.
  apply (unchanged_rows_skip utc_machine plain_digest int_digits 72
           (world_with [adler]) (world_with [adler; zebra_cancelled]) None adler_fp
           [adler] [adler]).
  - vm_compute. reflexivity.
  - discriminate.
  - vm_compute. reflexivity.
  - vm_compute. reflexivity.
  - reflexivity.
Defined.

Lemma failed_sync_retried_witness :
  ∃ log', run utc_machine plain_digest int_digits 72
            [world_sheet_down [adler]; world_with [adler]] None
          = ((tick utc_machine plain_digest int_digits 72 (world_sheet_down [adler]) None).1
               ++ EvFetch :: EvSheetRead :: log',
             (tick utc_machine plain_digest int_digits 72 (world_with [adler]) None).2).
Proof.
  apply (failed_sync_retried utc_machine plain_digest int_digits 72
           (world_sheet_down [adler]) (world_with [adler]) None HttpError
           [adler_row] adler_fp).
  - reflexivity.
  - left. exists [adler_row], adler_fp. split_and!; [|discriminate|reflexivity].
    exists [adler]. split_and!; vm_compute; reflexivity.
  - exists [adler]. split_and!; vm_compute; reflexivity.
  - exists [adler]. split_and!; vm_compute; reflexivity.
Defined.

Lemma loop_invariant_witness :
  (Some adler_fp = None
   ∨ ∃ w rows fp out,
       w ∈ [world_sheet_down [adler]; world_with [adler]] ∧ Some adler_fp = Some fp
       ∧ new_fingerprint utc_machine plain_digest w rows fp
       ∧ instructions int_digits 72 w rows out
       ∧ (apply_changes w out.1 out.2).2 = Ok tt)
  ∧ is_Exception KeyboardInterrupt = false.
Proof.
  split.
  - destruct (loop_invariant utc_machine plain_digest int_digits 72
                [world_sheet_down [adler]; world_with [adler]] None) as [H _].
    apply H. vm_compute. reflexivity.
  - destruct (loop_invariant utc_machine plain_digest int_digits 72
                [world_interrupted; world_with [adler]] None) as [_ H].
    apply H. vm_compute. reflexivity.
Defined.

(* ================================================================== *)
(** ** The team name of a rendered text *)
(* ================================================================== *)

Lemma split_go_hd sep s cur :
  hd [] (split_go sep s 0 cur) = rev cur ++ hd [] (split_go sep s 0 []).
Proof.
  induction s as [|c s IH] in cur |- *.
  - simpl. by rewrite app_nil_r.
  - cbn [split_go]. destruct (startswith (c :: s) sep).
    + simpl. by rewrite app_nil_r.
    + rewrite IH, (IH [c]). simpl. by rewrite <- app_assoc.
Qed.

(** [s.split(sep)[0]], one character at a time. *)
Lemma split_first_cons c s sep :
  split_first (c :: s) sep
  = if startswith (c :: s) sep then [] else c :: split_first s sep.
Proof.
  unfold split_first, split. cbn [split_go].
  destruct (startswith (c :: s) sep); [done|].
  by rewrite split_go_hd.
Qed.

Lemma startswith_app_l s x p :
  (length p <= length s)%nat → startswith (s ++ x) p = startswith s p.
Proof.
  induction p as [|c p IH] in s |- *; [done|].
  destruct s as [|d s]; simpl; [lia|].
  intros Hlen. rewrite IH by lia. done.
Qed.

(** X13.  A team name without [" aus"] in it is what the reconciler
    and the sheet reader take as the key of the text that [make_rows]
    renders for it, whatever the village and the paid state are. *)
Theorem team_of_render team village paid :
  contains team (py " aus") = false →
  team_of (render team village paid) = team.
Proof.
  unfold team_of, render.
  set (rest := village ++ _).
  induction team as [|c team IH]; intros Hc.
  - reflexivity.
  - cbn [contains] in Hc. apply orb_false_iff in Hc as [Hs Hc].
    rewrite <- app_comm_cons, split_first_cons.
    assert (startswith (c :: team ++ py " aus " ++ rest) (py " aus ") = false) as ->.
    { destruct (startswith (c :: team ++ py " aus " ++ rest) (py " aus ")) eqn:E; [|done].
      rewrite <- Hs.
      destruct team as [|d [|e [|f team]]].
      - vm_compute in E. by destruct c as [|[]].
      - simpl in E. rewrite !andb_false_r in E. done.
      - simpl in E. rewrite !andb_false_r in E. done.
      - rewrite app_comm_cons in E.
        change (py " aus ") with (py " aus" ++ [32%N]) in E.
        clear -E. simpl in *.
        repeat (apply andb_prop in E as [-> E]). done. }
    by rewrite IH.
Qed.

Lemma team_of_render_witness :
  team_of (render (py "TSV Adler 2") (py "Beesten") true) = py "TSV Adler 2".
Proof.
  apply team_of_render. vm_compute. reflexivity.
Defined.

(** A team name with the separator in it is cut at the separator. *)
Example team_of_render_cut :
  team_of (render (py "Gut aus Holz") (py "Lingen") false) = py "Gut".
Proof. vm_compute. reflexivity. Qed.

(* ================================================================== *)
(** ** Flattening a record *)
(* ================================================================== *)

(** Induction on a JSON value, with the hypothesis for every element
    of a list and every value of an object. *)
Lemma pyval_nested_ind (P : pyval → Prop) :
  P PyNone → (∀ b, P (PyBool b)) → (∀ z, P (PyInt z)) → (∀ s, P (PyStr s)) →
  (∀ l, Forall P l → P (PyList l)) →
  (∀ d, Forall (λ kv : pystr * pyval, P kv.2) d → P (PyDict d)) →
  ∀ v, P v.
Proof.
  intros HN HB HI HS HL HD.
  fix IH 1. intros [|b|z|s|l|d].
  - exact HN.
  - apply HB.
  - apply HI.
  - apply HS.
  - apply HL. induction l as [|x l IHl]; constructor; [apply IH | exact IHl].
  - apply HD. induction d as [|[k x] d IHd]; constructor; [apply IH | exact IHd].
Qed.

Section FlattenFacts.

Import Flatten.

Lemma flatten_entry_dict sep parent out key d :
  flatten_entry sep parent out key (PyDict d)
  = update out (_flatten d (new_key_of parent sep key) sep).
Proof. reflexivity. Qed.

Lemma dset_flat out k v : flat out → is_scalar v = true → flat (dset out k v).
Proof.
  unfold flat. induction out as [|[k' v'] out IH]; simpl; intros Hout Hv.
  - by apply Forall_singleton.
  - apply Forall_cons in Hout as [H1 H2].
    destruct (eqb k' k); apply Forall_cons; split; auto.
Qed.

Lemma update_flat out other : flat out → flat other → flat (update out other).
Proof.
  unfold update. induction other as [|[k v] other IH] in out |- *; [done|].
  intros Hout [Hv Hother]%Forall_cons. cbn [foldl]. apply IH; [|done].
  by apply dset_flat.
Qed.

Lemma flatten_entry_flat sep parent out key val :
  flat out → flat (flatten_entry sep parent out key val).
Proof.
  revert sep parent out key.
  induction val as [|b|z|s|l IHl|d IHd] using pyval_nested_ind;
    intros sep parent out key Hout; try (by apply dset_flat).
  rewrite flatten_entry_dict. apply update_flat; [done|].
  unfold _flatten. generalize (new_key_of parent sep key). intros p.
  assert (flat []) as Hnil by apply Forall_nil_2.
  revert Hnil. generalize (@nil (pystr * pyval)).
  induction d as [|[k x] d IH]; intros o Ho; [done|].
  apply Forall_cons in IHd as [Hx Hd]. cbn [foldl]. apply IH; [done|].
  by apply Hx.
Qed.

Lemma flatten_flat obj parent sep : flat (_flatten obj parent sep).
Proof.
  unfold _flatten.
  assert (flat []) as Hnil by apply Forall_nil_2.
  revert Hnil. generalize (@nil (pystr * pyval)).
  induction obj as [|[k x] obj IH]; intros o Ho; [done|].
  cbn [foldl]. apply IH. by apply flatten_entry_flat.
Qed.

Lemma update_NoDup out other : NoDup (keys out) → NoDup (keys (update out other)).
Proof.
  unfold update. induction other as [|[k v] other IH] in out |- *; [done|].
  intros Hout. cbn [foldl]. apply IH. by apply NoDup_keys_dset.
Qed.

Lemma flatten_entry_NoDup sep parent out key val :
  NoDup (keys out) → NoDup (keys (flatten_entry sep parent out key val)).
Proof.
  intros Hout. destruct val; try (by apply NoDup_keys_dset).
  rewrite flatten_entry_dict. by apply update_NoDup.
Qed.

Lemma flatten_NoDup obj parent sep : NoDup (keys (_flatten obj parent sep)).
Proof.
  unfold _flatten.
  assert (NoDup (keys (@nil (pystr * pyval)))) as Hnil by apply NoDup_nil_2.
  revert Hnil. generalize (@nil (pystr * pyval)).
  induction obj as [|[k x] obj IH]; intros o Ho; [done|].
  cbn [foldl]. apply IH. by apply flatten_entry_NoDup.
Qed.

Lemma dset_fresh {V} (d : dict V) k v : k ∉ keys d → dset d k v = d ++ [(k, v)].
Proof.
  unfold keys. induction d as [|[k' v'] d IH]; simpl; [done|].
  intros [Hne Hk]%not_elem_of_cons.
  assert (eqb k' k = false) as -> by (apply eqb_neq; congruence).
  by rewrite IH.
Qed.

Lemma flatten_flat_id_go sep acc obj :
  NoDup (keys (acc ++ obj)) → flat obj →
  foldl (λ o kv, let '(k, x) := kv in flatten_entry sep [] o k x) acc obj = acc ++ obj.
Proof.
  induction obj as [|[k v] obj IH] in acc |- *; intros Hnd Hflat.
  - by rewrite app_nil_r.
  - apply Forall_cons in Hflat as [Hv Hflat]. cbn [foldl].
    assert (flatten_entry sep [] acc k v = acc ++ [(k, v)]) as ->.
    { assert (k ∉ keys acc) as Hk.
      { unfold keys in *. rewrite fmap_app, fmap_cons in Hnd.
        apply NoDup_app in Hnd as (_ & Hd & _). intros Hin.
        apply (Hd k Hin). left. }
      destruct v; try done; simpl; by apply dset_fresh. }
    rewrite IH; [by rewrite <- app_assoc | by rewrite <- app_assoc | done].
Qed.

(** X14.  What [_flatten] returns is flat and is a dict: no value is a
    dict or a list any more, whatever the nesting of the record was,
    and no key occurs twice. *)
Theorem flatten_is_flat obj parent sep :
  flat (_flatten obj parent sep) ∧ NoDup (keys (_flatten obj parent sep)).
Proof. split; [apply flatten_flat | apply flatten_NoDup]. Qed.

(** X15.  A record that is flat already is returned as it is, and so
    flattening twice is the same as flattening once. *)
Theorem flatten_idempotent :
  (∀ obj sep, NoDup (keys obj) → flat obj → _flatten obj [] sep = obj)
  ∧ (∀ obj parent sep sep',
       _flatten (_flatten obj parent sep) [] sep' = _flatten obj parent sep).
Proof.
  assert (∀ obj sep, NoDup (keys obj) → flat obj → _flatten obj [] sep = obj) as Hid.
  { intros obj sep Hnd Hflat. unfold _flatten. by rewrite flatten_flat_id_go. }
  split; [done|]. intros obj parent sep sep'.
  apply Hid; [apply flatten_NoDup | apply flatten_flat].
Qed.

Lemma keys_dset_sub {V} (d : dict V) k v k' :
  k' ∈ keys (dset d k v) → k' ∈ keys d ∨ k' = k.
Proof.
  rewrite keys_dset. destruct (dmem d k); [by left|].
  intros [?|Hk]%elem_of_app; [by left|].
  apply list_elem_of_singleton in Hk. by right.
Qed.

Lemma keys_update_sub out other k :
  k ∈ keys (update out other) → k ∈ keys out ∨ k ∈ keys other.
Proof.
  unfold update. induction other as [|[k0 v0] other IH] in out |- *; [by left|].
  cbn [foldl]. intros [[?| ->]%keys_dset_sub|?]%IH.
  - by left.
  - right. left.
  - right. by right.
Qed.

Lemma new_key_of_nonempty parent sep key :
  parent ≠ [] → new_key_of parent sep key = parent ++ sep ++ key.
Proof. by destruct parent. Qed.

Lemma flatten_entry_keys sep parent out key val k :
  parent ≠ [] →
  k ∈ keys (flatten_entry sep parent out key val) →
  k ∈ keys out ∨ ∃ rest, k = parent ++ sep ++ rest.
Proof.
  revert sep parent out key k.
  induction val as [|b|z|s|l IHl|d IHd] using pyval_nested_ind;
    intros sep parent out key k Hp;
    try (cbn [flatten_entry]; rewrite new_key_of_nonempty by done;
         intros [?| ->]%keys_dset_sub; [by left | right; by eexists]).
  rewrite flatten_entry_dict, new_key_of_nonempty by done.
  intros [?|Hk]%keys_update_sub; [by left|]. right.
  set (p := parent ++ sep ++ key) in *.
  assert (p ≠ []) as Hpne by (subst p; by destruct parent).
  assert (k ∈ keys (@nil (pystr * pyval)) ∨ ∃ rest, k = p ++ sep ++ rest)
    as [Hnil|(rest & ->)].
  { revert Hk. unfold _flatten. generalize (@nil (pystr * pyval)).
    induction d as [|[k0 x] d IH]; intros o Hk; [by left|].
    apply Forall_cons in IHd as [Hx Hd]. cbn [foldl] in Hk.
    destruct (IH Hd _ Hk) as [Hin|?]; [|by right].
    destruct (Hx sep p o k0 k Hpne Hin) as [?|?]; [by left | by right]. }
  - by apply elem_of_nil in Hnil.
  - exists (key ++ sep ++ rest). subst p. by rewrite <- !app_assoc.
Qed.

(** X16.  Under a parent key every column name that [_flatten] makes
    starts with the parent key and the separator: the fields of a
    nested object cannot be taken for fields of the record itself or
    of another object. *)
Theorem flatten_keys_prefix obj parent sep k :
  parent ≠ [] →
  k ∈ keys (_flatten obj parent sep) →
  ∃ rest, k = parent ++ sep ++ rest.
Proof.
  intros Hp Hk.
  assert (k ∈ keys (@nil (pystr * pyval)) ∨ ∃ rest, k = parent ++ sep ++ rest)
    as [Hnil|?]; [|by apply elem_of_nil in Hnil|done].
  revert Hk. unfold _flatten. generalize (@nil (pystr * pyval)).
  induction obj as [|[k0 x] obj IH]; intros o Hk; [by left|].
  cbn [foldl] in Hk. destruct (IH _ Hk) as [Hin|?]; [|by right].
  by apply flatten_entry_keys in Hin.
Qed.

(** The record of the example, flattened: the nested object gives one
    column for each of its fields, a list gives one string (with [']
    standing for the double quote). *)
Example flatten_nested_person :
  _flatten nested_person [] (py ".")
  = [(py "id", PyInt 7);
     (py "name.first", PyStr (py "Tom"));
     (py "name.last", PyNone);
     (py "label_names", PyStr (py "Bezahlt;;True"));
     (py "phones",
      PyStr (bytes_of_string "{'number': '+49'}"
             ≫= λ c, if (c =? 39)%N then [34%N] else [c]))].
Proof. vm_compute. reflexivity. Qed.

End FlattenFacts.

Lemma flatten_idempotent_witness :
  Flatten._flatten [(py "id", PyInt 7); (py "team", PyStr (py "Adler"))] [] (py ".")
  = [(py "id", PyInt 7); (py "team", PyStr (py "Adler"))].
Proof.
  destruct flatten_idempotent as [H _]. apply H.
  - vm_compute. apply NoDup_cons. split.
    + intros [[=]|H']%elem_of_cons. by apply elem_of_nil in H'.
    + apply NoDup_singleton.
  - apply Forall_cons_2; [reflexivity|]. apply Forall_cons_2; [reflexivity|].
    apply Forall_nil_2.
Defined.

Lemma flatten_keys_prefix_witness :
  ∃ rest, py "name.first" = py "name" ++ py "." ++ rest.
Proof.
  apply (flatten_keys_prefix
           [(py "first", PyStr (py "Tom")); (py "last", PyNone)] (py "name") (py ".")).
  - discriminate.
  - vm_compute. left.
Defined.

(* ================================================================== *)
(** ** The serialisation behind the fingerprint is injective *)
(* ================================================================== *)

Lemma hex_digit_inj a b :
  (a < 16)%N → (b < 16)%N → Json.hex_digit a = Json.hex_digit b → a = b.
Proof.
  unfold Json.hex_digit. intros Ha Hb.
  destruct (N.ltb_spec a 10), (N.ltb_spec b 10); lia.
Qed.

Lemma u_escape_inj c d :
  (c < 65536)%N → (d < 65536)%N → Json.u_escape c = Json.u_escape d → c = d.
Proof.
  unfold Json.u_escape. intros Hc Hd [= H3 H2 H1 H0].
  apply hex_digit_inj in H3, H2, H1, H0; try (apply N.mod_lt; lia).
  rewrite (N.div_mod c 16), (N.div_mod d 16) by lia. rewrite H0. f_equal. f_equal.
  rewrite (N.div_mod (c / 16) 16), (N.div_mod (d / 16) 16) by lia.
  rewrite !N.Div0.div_div. change (16 * 16)%N with 256%N. rewrite H1. f_equal. f_equal.
  rewrite (N.div_mod (c / 256) 16), (N.div_mod (d / 256) 16) by lia.
  rewrite !N.Div0.div_div. change (256 * 16)%N with 4096%N. rewrite H2. f_equal. f_equal.
  rewrite <- (N.mod_small (c / 4096) 16), <- (N.mod_small (d / 4096) 16); [done| |].
  - apply N.Div0.div_lt_upper_bound. lia.
  - apply N.Div0.div_lt_upper_bound. lia.
Qed.

Lemma lor_low10 K y :
  N.land K 1023 = 0%N → N.lor K (N.land y 1023) = (K + y mod 1024)%N.
Proof.
  intros HK.
  assert (N.land K (N.land y 1023) = 0%N) as Hdisj.
  { rewrite (N.land_comm y), N.land_assoc, HK. apply N.land_0_l. }
  rewrite <- N.lxor_lor, <- N.add_nocarry_lxor by done.
  f_equal. change 1023%N with (N.ones 10). by rewrite N.land_ones.
Qed.


Lemma hi_surrogate_eq v : hi_surrogate v = (55296 + (v / 1024) mod 1024)%N.
Proof.
  unfold hi_surrogate. rewrite lor_low10 by done. by rewrite N.shiftr_div_pow2.
Qed.

Lemma lo_surrogate_eq v : lo_surrogate v = (56320 + v mod 1024)%N.
Proof. unfold lo_surrogate. by rewrite lor_low10. Qed.


Lemma u_escape_app_inj c d X Y :
  (c < 65536)%N → (d < 65536)%N →
  Json.u_escape c ++ X = Json.u_escape d ++ Y → c = d ∧ X = Y.
Proof.
  intros Hc Hd H.
  assert (Json.u_escape c = Json.u_escape d ∧ X = Y) as [Hu ->].
  { unfold Json.u_escape in *. simpl in H. injection H as -> -> -> -> ->. done. }
  split; [|done]. by apply u_escape_inj.
Qed.

Lemma hi_surrogate_range v : (55296 <= hi_surrogate v < 56320)%N.
Proof.
  rewrite hi_surrogate_eq.
  assert ((v / 1024) mod 1024 < 1024)%N as H by (apply N.mod_lt; lia).
  revert H. generalize ((v / 1024) mod 1024)%N. intros; lia.
Qed.

Lemma lo_surrogate_range v : (56320 <= lo_surrogate v < 57344)%N.
Proof.
  rewrite lo_surrogate_eq.
  assert (v mod 1024 < 1024)%N as H by (apply N.mod_lt; lia).
  revert H. generalize (v mod 1024)%N. intros; lia.
Qed.

Lemma surrogates_inj v w :
  (v < 1048576)%N → (w < 1048576)%N →
  hi_surrogate v = hi_surrogate w → lo_surrogate v = lo_surrogate w → v = w.
Proof.
  rewrite !hi_surrogate_eq, !lo_surrogate_eq. intros Hv Hw Hh Hl.
  assert (v / 1024 < 1024)%N by (apply N.Div0.div_lt_upper_bound; lia).
  assert (w / 1024 < 1024)%N by (apply N.Div0.div_lt_upper_bound; lia).
  rewrite (N.mod_small (v / 1024)), (N.mod_small (w / 1024)) in Hh by done.
  rewrite (N.div_mod v 1024), (N.div_mod w 1024) by lia. lia.
Qed.

Lemma escape_char_astral c :
  (65536 <= c)%N →
  Json.escape_char c
  = Json.u_escape (hi_surrogate (c - 65536)) ++ Json.u_escape (lo_surrogate (c - 65536)).
Proof.
  intros Hc. unfold Json.escape_char.
  repeat match goal with
         | |- context [(c =? ?k)%N] => destruct (N.eqb_spec c k); [lia|]
         end.
  destruct (N.leb_spec c 126); [lia|]. rewrite andb_false_r.
  destruct (N.ltb_spec c 65536); [lia|]. reflexivity.
Qed.


Ltac split_escape c :=
  repeat match goal with
         | |- context [(c =? ?k)%N] => destruct (N.eqb_spec c k) as [->|?]
         end.

Lemma escape_char_bmp_prefix c d X Y :
  (c < 65536)%N → (d < 65536)%N →
  Json.escape_char c ++ X = Json.escape_char d ++ Y → c = d ∧ X = Y.
Proof.
  intros Hc Hd. unfold Json.escape_char.
  apply N.ltb_lt in Hc as Hcb. apply N.ltb_lt in Hd as Hdb.
  split_escape c; split_escape d; rewrite ?Hcb, ?Hdb;
    repeat match goal with
           | |- context [(32 <=? ?a)%N && (?a <=? 126)%N] =>
               destruct ((32 <=? a)%N && (a <=? 126)%N)
           end;
    try (intros H; simpl in H; injection H; intros; subst; split; (done || lia));
    try (by apply u_escape_app_inj).
Qed.

Lemma escape_char_mixed_prefix c d X Y :
  unicode_scalar c → (c < 65536)%N → (65536 <= d)%N →
  Json.escape_char c ++ X ≠ Json.escape_char d ++ Y.
Proof.
  intros Hs Hc Hd. rewrite (escape_char_astral d) by done. rewrite <- app_assoc.
  pose proof (hi_surrogate_range (d - 65536)) as Hr.
  unfold Json.escape_char.
  apply N.ltb_lt in Hc as Hcb.
  split_escape c; rewrite ?Hcb;
    try (destruct ((32 <=? c)%N && (c <=? 126)%N));
    try (intros H; simpl in H; injection H; intros; subst; lia).
  intros [-> _]%u_escape_app_inj; [|lia..].
  unfold unicode_scalar in Hs. lia.
Qed.

Lemma escape_char_prefix c d X Y :
  unicode_scalar c → unicode_scalar d →
  Json.escape_char c ++ X = Json.escape_char d ++ Y → c = d ∧ X = Y.
Proof.
  intros Hc Hd.
  destruct (N.ltb_spec c 65536) as [Hc16|Hc16], (N.ltb_spec d 65536) as [Hd16|Hd16].
  - by apply escape_char_bmp_prefix.
  - intros H. by apply escape_char_mixed_prefix in H.
  - intros H. symmetry in H. by apply escape_char_mixed_prefix in H.
  - rewrite !escape_char_astral by done. rewrite <- !app_assoc.
    pose proof (hi_surrogate_range (c - 65536)).
    pose proof (hi_surrogate_range (d - 65536)).
    pose proof (lo_surrogate_range (c - 65536)).
    pose proof (lo_surrogate_range (d - 65536)).
    intros [Hh [Hl ->]%u_escape_app_inj]%u_escape_app_inj; try lia.
    split; [|done].
    assert (c - 65536 = d - 65536)%N; [|lia].
    unfold unicode_scalar in *. apply surrogates_inj; [lia..|done|done].
Qed.

Lemma escape_char_head c X r : Json.escape_char c ++ X ≠ 34%N :: r.
Proof.
  unfold Json.escape_char.
  split_escape c;
    try (destruct ((32 <=? c)%N && (c <=? 126)%N));
    try (destruct (c <? 65536)%N);
    try (intros H; simpl in H; injection H; intros; subst; lia).
Qed.

Lemma escape_body_inj t1 t2 r1 r2 :
  Forall unicode_scalar t1 → Forall unicode_scalar t2 →
  flat_map Json.escape_char t1 ++ 34%N :: r1 = flat_map Json.escape_char t2 ++ 34%N :: r2 →
  t1 = t2 ∧ r1 = r2.
Proof.
  intros H1. revert t2. induction H1 as [|c t1 Hc Ht1 IH]; intros t2 H2 H.
  - destruct H2 as [|d t2 Hd Ht2]; simpl in H.
    + by injection H as ->.
    + rewrite <- app_assoc in H. symmetry in H. by apply escape_char_head in H.
  - destruct H2 as [|d t2 Hd Ht2]; simpl in H.
    + rewrite <- app_assoc in H. by apply escape_char_head in H.
    + rewrite <- !app_assoc in H.
      apply escape_char_prefix in H as [-> H]; [|done..].
      apply IH in H as [-> ->]; done.
Qed.

Lemma dumps_str_inj t1 t2 r1 r2 :
  Forall unicode_scalar t1 → Forall unicode_scalar t2 →
  Json.dumps_str t1 ++ r1 = Json.dumps_str t2 ++ r2 → t1 = t2 ∧ r1 = r2.
Proof.
  intros H1 H2. unfold Json.dumps_str. rewrite <- !app_assoc. simpl.
  intros [= H]. rewrite <- ?app_assoc in H. simpl in H.
  by apply escape_body_inj.
Qed.

Lemma split_at_sep {A} (c : A) l1 l2 r1 r2 :
  c ∉ l1 → c ∉ l2 → l1 ++ c :: r1 = l2 ++ c :: r2 → l1 = l2 ∧ r1 = r2.
Proof.
  induction l1 as [|x l1 IH] in l2 |- *; intros H1 H2 H.
  - destruct l2 as [|y l2]; simpl in H.
    + by injection H as ->.
    + injection H as -> _. destruct H2. left.
  - destruct l2 as [|y l2]; simpl in H.
    + injection H as -> _. destruct H1. left.
    + injection H as -> H. apply not_elem_of_cons in H1 as [_ H1].
      apply not_elem_of_cons in H2 as [_ H2].
      destruct (IH _ H1 H2 H) as [-> ->]. done.
Qed.

Lemma bytes_of_string_inj s t : bytes_of_string s = bytes_of_string t → s = t.
Proof.
  induction s as [|a s IH] in t |- *; destruct t as [|b t]; simpl; try done.
  intros [= Hab Hst]. f_equal; [|by apply IH].
  rewrite <- (ascii_N_embedding a), <- (ascii_N_embedding b). by rewrite Hab.
Qed.

Lemma to_int_normal z :
  Z.to_int z ≠ Decimal.Pos Decimal.Nil ∧ Z.to_int z ≠ Decimal.Neg Decimal.Nil.
Proof.
  destruct z as [|p|p]; simpl; split; try done.
  - intros [= H]. by apply DecimalPos.Unsigned.to_uint_nonnil in H.
  - intros [= H]. by apply DecimalPos.Unsigned.to_uint_nonnil in H.
Qed.

Lemma dumps_int_inj z1 z2 : Json.dumps_int z1 = Json.dumps_int z2 → z1 = z2.
Proof.
  unfold Json.dumps_int. intros H%bytes_of_string_inj.
  apply DecimalZ.to_int_inj.
  destruct (to_int_normal z1) as [Hp1 Hn1], (to_int_normal z2) as [Hp2 Hn2].
  pose proof (NilZero.isi _ Hp1 Hn1) as H1.
  pose proof (NilZero.isi _ Hp2 Hn2) as H2.
  rewrite H in H1. congruence.
Qed.

Lemma string_of_uint_digits d :
  Forall (λ c, 48 <= c <= 57)%N (bytes_of_string (NilEmpty.string_of_uint d)).
Proof.
  induction d; simpl; try apply Forall_nil_2;
    (apply Forall_cons_2; [vm_compute; split; discriminate | done]).
Qed.

Lemma dumps_int_no_comma z : 44%N ∉ Json.dumps_int z.
Proof.
  assert (Forall (λ c, c = 45 ∨ 48 <= c <= 57)%N (Json.dumps_int z)) as H.
  { unfold Json.dumps_int, NilZero.string_of_int, NilZero.string_of_uint.
    assert (∀ d, Forall (λ c, c = 45 ∨ 48 <= c <= 57)%N
                   (bytes_of_string (NilEmpty.string_of_uint d))) as Hd.
    { intros d. eapply Forall_impl; [apply string_of_uint_digits|]. intros; by right. }
    destruct (Z.to_int z) as [d|d].
    - destruct d; try apply Hd. apply Forall_cons_2; [right; split; vm_compute; discriminate | apply Forall_nil_2].
    - simpl. apply Forall_cons_2; [by left|].
      destruct d; try apply Hd. apply Forall_cons_2; [right; split; vm_compute; discriminate | apply Forall_nil_2]. }
  intros Hin. apply list_elem_of_lookup in Hin as [i Hi].
  apply (Forall_lookup_1 _ _ _ _ H) in Hi. lia.
Qed.

Lemma dumps_int_sep z1 z2 r1 r2 :
  Json.dumps_int z1 ++ 44%N :: r1 = Json.dumps_int z2 ++ 44%N :: r2 →
  z1 = z2 ∧ r1 = r2.
Proof.
  intros [H ->]%split_at_sep; [|apply dumps_int_no_comma..].
  split; [|done]. by apply dumps_int_inj.
Qed.

Lemma dumps_bool_sep b1 b2 r1 r2 :
  Json.dumps_bool b1 ++ 93%N :: r1 = Json.dumps_bool b2 ++ 93%N :: r2 →
  b1 = b2 ∧ r1 = r2.
Proof.
  destruct b1, b2; intros H; vm_compute in H; split; congruence.
Qed.

Lemma dumps_row_prefix r1 r2 X Y :
  Forall unicode_scalar (row_text r1) → Forall unicode_scalar (row_text r2) →
  Json.dumps_row r1 ++ X = Json.dumps_row r2 ++ Y → r1 = r2 ∧ X = Y.
Proof.
  destruct r1 as [[p1 t1] b1], r2 as [[p2 t2] b2]. unfold row_text. cbn [fst snd].
  intros H1 H2. unfold Json.dumps_row.
  change (py "[") with [91%N]. change (py ",") with [44%N]. change (py "]") with [93%N].
  rewrite <- !app_assoc. cbn [app]. intros [= H].
  apply dumps_int_sep in H as [-> H].
  apply dumps_str_inj in H as [-> H]; [|done..].
  injection H as H.
  apply dumps_bool_sep in H as [-> ->]. done.
Qed.

Lemma dumps_rows_inj R1 R2 :
  encodable R1 → encodable R2 → Json.dumps R1 = Json.dumps R2 → R1 = R2.
Proof.
  unfold Json.dumps.
  change (py "[") with [91%N]. change (py ",") with [44%N]. change (py "]") with [93%N].
  intros H1 H2 [= H]. revert R2 H2 H.
  induction H1 as [|r1 R1 Hr1 HR1 IH]; intros R2 H2 H.
  - destruct H2 as [|r2 R2 Hr2 HR2]; [done|].
    exfalso. destruct r2 as [[p t] b]. simpl in H. destruct R2; simpl in H; discriminate.
  - destruct H2 as [|r2 R2 Hr2 HR2].
    { exfalso. destruct r1 as [[p t] b]. simpl in H. destruct R1; simpl in H; discriminate. }
    assert (∀ r R, Json.join [44%N] (map Json.dumps_row (r :: R)) ++ [93%N]
                   = Json.dumps_row r
                       ++ match R with
                          | [] => [93%N]
                          | _ => 44%N :: Json.join [44%N] (map Json.dumps_row R) ++ [93%N]
                          end) as Hjoin.
    { intros r [|r' R]; simpl; [done|]. by rewrite <- !app_assoc. }
    rewrite !Hjoin in H.
    apply dumps_row_prefix in H as [-> H]; [|done..].
    f_equal. destruct R1 as [|r1' R1], R2 as [|r2' R2].
    + done.
    + exfalso. discriminate.
    + exfalso. discriminate.
    + injection H as H. by apply IH.
Qed.


Lemma encodable_bool rows :
  forallb (λ r, forallb is_unicode_scalar (row_text r)) rows = true → encodable rows.
Proof.
  unfold encodable. rewrite forallb_forall, Forall_forall.
  intros H r Hr%list_elem_of_In. specialize (H r Hr).
  rewrite forallb_forall in H. apply Forall_forall.
  intros c Hc%list_elem_of_In. specialize (H c Hc).
  unfold is_unicode_scalar in H. unfold unicode_scalar.
  apply orb_true_iff in H as [H%N.ltb_lt|[H1%N.ltb_lt H2%N.ltb_lt]%andb_true_iff]; lia.
Qed.

(** X17.  The change detection misses no change of the rows: on
    texts without lone surrogates two different row sets are never
    serialised to the same JSON, so their fingerprints can only be
    equal if the hash function maps two different byte strings, the
    two serialisations, to the same digest. *)
Theorem fingerprint_faithful sha256_hexdigest R1 R2 :
  encodable R1 → encodable R2 →
  (Json.dumps R1 = Json.dumps R2 → R1 = R2)
  ∧ (R1 ≠ R2 →
     fingerprint sha256_hexdigest R1 = fingerprint sha256_hexdigest R2 →
     Json.dumps R1 ≠ Json.dumps R2
     ∧ sha256_hexdigest (Json.dumps R1) = sha256_hexdigest (Json.dumps R2)).
Proof.
  intros H1 H2. split; [by apply dumps_rows_inj|].
  intros Hne Hfp. split.
  - intros H. by apply Hne, dumps_rows_inj.
  - rewrite !fingerprint_total in Hfp. by injection Hfp.
Qed.

Lemma fingerprint_faithful_witness :
  (Json.dumps scenario_rows = Json.dumps [adler_row] → scenario_rows = [adler_row])
  ∧ (scenario_rows ≠ [adler_row] →
     fingerprint plain_digest scenario_rows = fingerprint plain_digest [adler_row] →
     Json.dumps scenario_rows ≠ Json.dumps [adler_row]
     ∧ plain_digest (Json.dumps scenario_rows) = plain_digest (Json.dumps [adler_row])).
Proof.
  apply fingerprint_faithful; apply encodable_bool; vm_compute; reflexivity.
Defined.

(** Why the texts must be free of lone surrogates: a character beyond
    the basic plane is written as a surrogate pair, and so are the two
    surrogates when they stand in the text themselves. *)
Example dumps_surrogate_pair :
  Json.dumps [(1, [128512%N], true)] = Json.dumps [(1, [55357%N; 56832%N], true)].
Proof. vm_compute. reflexivity. Qed.

(* ================================================================== *)
(** ** The base URL *)
(* ================================================================== *)

Lemma has_char_slash c : has_char c (py "/") = (c =? 47)%N.
Proof.
  unfold has_char. change (py "/") with [47%N]. cbn [existsb]. apply orb_false_r.
Qed.

Lemma startswith_slash c s : startswith (c :: s) (py "/") = (c =? 47)%N.
Proof.
  change (py "/") with [47%N]. cbn [startswith].
  rewrite andb_true_r. apply N.eqb_sym.
Qed.

Lemma lstrip_slash_head s :
  startswith (lstrip_chars (py "/") s) (py "/") = false.
Proof.
  induction s as [|c s IH]; [done|]. cbn [lstrip_chars].
  rewrite has_char_slash. destruct (c =? 47)%N eqn:E; [done|].
  by rewrite startswith_slash.
Qed.

Lemma lstrip_slash_id s :
  startswith s (py "/") = false → lstrip_chars (py "/") s = s.
Proof.
  destruct s as [|c s]; [done|]. rewrite startswith_slash. intros H.
  cbn [lstrip_chars]. by rewrite has_char_slash, H.
Qed.

(** X18.  The base URL the client keeps ends with exactly one slash,
    however many the given one ends with; a URL without a final slash
    gets one, and normalising twice changes nothing more. *)
Theorem base_url_of_spec u :
  let b := base_url_of u in
  endswith b (py "/") = true
  ∧ endswith b (py "//") = false
  ∧ base_url_of b = b
  ∧ (endswith u (py "/") = false → b = u ++ py "/").
Proof.
  intros b. subst b. unfold base_url_of, rstrip_chars, endswith.
  pose proof (lstrip_slash_head (rev u)) as Hh.
  set (x := lstrip_chars (py "/") (rev u)) in *.
  assert (rev (rev x ++ py "/") = 47%N :: x) as Hrev.
  { rewrite rev_app_distr, rev_involutive. reflexivity. }
  rewrite !Hrev. split_and!.
  - reflexivity.
  - clearbody x. change (rev (py "//")) with [47%N; 47%N].
    destruct x as [|c x]; [done|]. rewrite startswith_slash in Hh.
    cbn [startswith]. by rewrite N.eqb_refl, (N.eqb_sym 47 c), Hh.
  - cbn [lstrip_chars]. rewrite has_char_slash, N.eqb_refl.
    by rewrite (lstrip_slash_id x).
  - change (rev (py "/")) with (py "/"). intros Hu. f_equal. subst x.
    rewrite (lstrip_slash_id (rev u)) by done. apply rev_involutive.
Qed.

Lemma base_url_of_spec_witness :
  base_url_of (py "https://api.campflow.de") = py "https://api.campflow.de" ++ py "/".
Proof.
  destruct (base_url_of_spec (py "https://api.campflow.de")) as (_ & _ & _ & H).
  apply H. vm_compute. reflexivity.
Defined.

(* ================================================================== *)
(** ** [persons] of the single-file version *)
(* ================================================================== *)

Section OldPersons.

Variable due : Z → bool.

Lemma not_cancelled_dated d :
  dated d →
  Old.not_cancelled d
  = Ok (negb (truthy (get d (py "cancellation_date") PyNone))).
Proof.
  intros [s Hs]. unfold Old.not_cancelled, getitem, get. rewrite Hs. simpl.
  f_equal. unfold eqb. rewrite negb_involutive.
  apply bool_decide_ext. split; congruence.
Qed.

Lemma keep_active_dated data :
  Forall dated data → Old.keep_active data = Ok (active data).
Proof.
  induction 1 as [|d data Hd _ IH]; [done|].
  cbn [Old.keep_active]. rewrite (not_cancelled_dated d Hd), IH. simpl.
  unfold active.
  destruct (truthy (get d (py "cancellation_date") PyNone)) eqn:E; simpl.
  - by rewrite filter_cons_False by (by rewrite E).
  - by rewrite filter_cons_True by (by rewrite E).
Qed.

Lemma keep_active_missing data d :
  d ∈ data → d !! py "cancellation_date" = None →
  Old.keep_active data = Raise KeyError.
Proof.
  intros Hin Hd. induction data as [|d' data IH]; [by apply elem_of_nil in Hin|].
  cbn [Old.keep_active].
  destruct (Old.not_cancelled d') as [b|e] eqn:E.
  - apply elem_of_cons in Hin as [->|Hin].
    + unfold Old.not_cancelled, getitem in E. by rewrite Hd in E.
    + simpl. by rewrite (IH Hin).
  - assert (e = KeyError) as ->; [|done].
    unfold Old.not_cancelled, getitem in E.
    destruct (d' !! py "cancellation_date"); simpl in E; congruence.
Qed.

(** X19.  On records that carry a string as cancellation date, the
    filter of the old [persons] keeps what [fetch_persons] keeps.
    When a snapshot is due the old version refuses an empty list of
    active records with a [ValueError] instead of returning it, so
    that it cannot report that every registration is gone. *)
Theorem old_persons_dated counter w data :
  w_fetch w = Ok data → Forall dated data →
  (due counter = false →
   Old.persons due counter w = ([EvFetch], Ok (active data, counter + 1)))
  ∧ (due counter = true → active data = [] →
     Old.persons due counter w = ([EvFetch], Raise ValueError))
  ∧ (w_snapshot w = Ok tt →
     fetch_persons w = ([EvFetch], Ok (active data))).
Proof.
  intros Hf Hd. unfold Old.persons, fetch_persons, call. rewrite Hf.
  cbn [mbind io_bind]. rewrite (keep_active_dated _ Hd).
  fold (active data). split_and!.
  - by intros ->.
  - intros -> ->. reflexivity.
  - intros ->. reflexivity.
Qed.

(** X20.  The old [persons] needs the key [cancellation_date] in every
    record: one record without it makes the call fail with a
    [KeyError], where [fetch_persons] keeps the record as an active
    one. *)
Theorem old_persons_missing_key counter w data d :
  w_fetch w = Ok data → d ∈ data → d !! py "cancellation_date" = None →
  Old.persons due counter w = ([EvFetch], Raise KeyError)
  ∧ d ∈ active data.
Proof.
  intros Hf Hin Hd. split.
  - unfold Old.persons, call. rewrite Hf. cbn [mbind io_bind].
    by rewrite (keep_active_missing _ _ Hin Hd).
  - unfold active. apply list_elem_of_filter. split; [|done].
    unfold get. by rewrite Hd.
Qed.

End OldPersons.

Lemma old_persons_dated_witness :
  (Old.persons (λ c, 20 <=? c) 20 (world_with []) = ([EvFetch], Raise ValueError))
  ∧ Old.persons (λ c, 20 <=? c) 3 (world_with [adler_active])
    = ([EvFetch], Ok (active [adler_active], 3 + 1)).
Proof.
  split.
  - destruct (old_persons_dated (λ c, 20 <=? c) 20 (world_with []) []) as (_ & H & _).
    + reflexivity.
    + apply Forall_nil_2.
    + apply H; reflexivity.
  - destruct (old_persons_dated (λ c, 20 <=? c) 3 (world_with [adler_active])
                [adler_active]) as (H & _).
    + reflexivity.
    + apply Forall_cons_2; [|apply Forall_nil_2]. exists []. vm_compute. reflexivity.
    + apply H. reflexivity.
Defined.

Lemma old_persons_missing_key_witness :
  Old.persons (λ c, 20 <=? c) 0 (world_with [adler]) = ([EvFetch], Raise KeyError)
  ∧ adler ∈ active [adler].
Proof.
  apply (old_persons_missing_key (λ c, 20 <=? c) 0 (world_with [adler]) [adler] adler).
  - reflexivity.
  - left.
  - vm_compute. reflexivity.
Defined.

(** X21.  When every record has the key, the old filter keeps exactly
    the records whose cancellation date is the empty string: a record
    with [null] there is dropped, where [fetch_persons] keeps it. *)
Theorem old_keep_active_exact data :
  Forall (λ d : item, is_Some (d !! py "cancellation_date")) data →
  Old.keep_active data = Ok (filter (λ d, empty_date d = true) data)
  ∧ ∀ d, d ∈ data → d !! py "cancellation_date" = Some PyNone →
      d ∈ active data ∧ d ∉ filter (λ d, empty_date d = true) data.
Proof.
  intros Hall. split.
  - induction Hall as [|d data [v Hv] _ IH]; [done|].
    cbn [Old.keep_active]. rewrite IH.
    unfold Old.not_cancelled, getitem. rewrite Hv. simpl.
    assert (empty_date d = str_eq_val [] v) as Heq.
    { unfold empty_date. rewrite Hv. destruct v as [|b|z|s|l|kv]; try done.
      by destruct s. }
    destruct (str_eq_val [] v).
    + by rewrite filter_cons_True.
    + rewrite filter_cons_False; [done|]. by rewrite Heq.
  - intros d Hin Hd. split.
    + unfold active. apply list_elem_of_filter. split; [|done].
      unfold get. by rewrite Hd.
    + intros [Hs _]%list_elem_of_filter. unfold empty_date in Hs. by rewrite Hd in Hs.
Qed.

Lemma old_keep_active_exact_witness :
  Old.keep_active [adler_null; adler_active]
  = Ok (filter (λ d, empty_date d = true) [adler_null; adler_active])
  ∧ ∀ d, d ∈ [adler_null; adler_active] →
      d !! py "cancellation_date" = Some PyNone →
      d ∈ active [adler_null; adler_active]
      ∧ d ∉ filter (λ d, empty_date d = true) [adler_null; adler_active].
Proof.
  apply old_keep_active_exact.
  apply Forall_cons_2; [by eexists|]. apply Forall_cons_2; [by eexists|].
  apply Forall_nil_2.
Defined.

(* ================================================================== *)
(** ** The order of the batch *)
(* ================================================================== *)

(** X22.  In the batch every write of a row comes before every
    blanking.  So when the stored row of a team that has disappeared is
    the row in which a new or changed text must be written, the batch
    holds the write and, further on, the blanking of the same sheet
    row; the colour of the row is set and, further on, reset. *)
Theorem reconcile_write_then_blank reserved current rows r team m :
  r ∈ rows →
  (dget current (team_of (row_text r)) = None
   ∨ ∃ m', dget current (team_of (row_text r)) = Some m' ∧ meta_text m' ≠ row_text r) →
  (team, m) ∈ current → team ∉ teams rows →
  meta_row m = row_for_position reserved (row_pos r) →
  let out := reconcile reserved current rows in
  (∃ writes blanks, out.1 = writes ++ blanks
     ∧ Forall (λ u, is_write u = true) writes
     ∧ Forall (λ u, is_write u = false) blanks
     ∧ (meta_row m, Cells (row_pos r) (row_text r)) ∈ writes
     ∧ (meta_row m, Blank) ∈ blanks)
  ∧ (∃ f1 f2 f3, out.2 = f1 ++ (meta_row m, Some (row_paid r)) :: f2
                          ++ (meta_row m, None) :: f3).
Proof.
  intros Hr Hup Hin Hgone Hrow out. subst out. rewrite reconcile_eq. cbn [fst snd].
  assert ((team, m) ∈ gone current rows) as Hg by (by apply list_elem_of_filter).
  split.
  - exists (upserts reserved current rows), (blank_of <$> gone current rows).
    split_and!.
    + done.
    + apply Forall_forall. intros u (r' & _ & [-> _]%upsert_of_elem)%elem_of_upserts. done.
    + apply Forall_forall. intros u (kv & -> & _)%list_elem_of_fmap. done.
    + apply elem_of_upserts. exists r. split; [done|].
      apply upsert_of_elem. by rewrite Hrow.
    + apply list_elem_of_fmap. by exists (team, m).
  - assert ((meta_row m, Some (row_paid r)) ∈ colour_of reserved <$> rows) as Hc.
    { apply list_elem_of_fmap. exists r. split; [|done]. unfold colour_of. by rewrite Hrow. }
    assert ((meta_row m, None) ∈ neutral_of <$> gone current rows) as Hn.
    { apply list_elem_of_fmap. by exists (team, m). }
    apply list_elem_of_split in Hc as (f1 & f2 & ->).
    apply list_elem_of_split in Hn as (g1 & g2 & ->).
    exists f1, (f2 ++ g1), g2. by rewrite <- !app_assoc.
Qed.

Lemma reconcile_write_then_blank_witness :
  let current := _read_sheet int_digits 72 sheet_adler_zebra in
  let out := reconcile 72 current scenario_rows in
  let m := mk_meta 3 2 false (py "Zebra aus Lingen – unbestätigt") in
  (∃ writes blanks, out.1 = writes ++ blanks
     ∧ Forall (λ u, is_write u = true) writes
     ∧ Forall (λ u, is_write u = false) blanks
     ∧ (meta_row m, Cells (row_pos falken_row) (row_text falken_row)) ∈ writes
     ∧ (meta_row m, Blank) ∈ blanks)
  ∧ (∃ f1 f2 f3, out.2 = f1 ++ (meta_row m, Some (row_paid falken_row)) :: f2
                          ++ (meta_row m, None) :: f3).
Proof.
  intros current out m.
  apply (reconcile_write_then_blank 72 current scenario_rows falken_row (py "Zebra") m).
  - right. left.
  - left. vm_compute. reflexivity.
  - vm_compute. right. left.
  - vm_compute. intros [[=]|[[=]|H]%elem_of_cons]%elem_of_cons. by apply elem_of_nil in H.
  - reflexivity.
Defined.
